(** * RxJS [from] and [fromEventPattern]: a shallow embedding

    Source: [src/core/perf/operators/from.js].

    The file follows the source top to bottom: the JavaScript data the
    code handles (numbers, values, objects, iterators), the helpers
    [numberIsFinite], [isNan], [sign], [toLength], the two built-in
    iterators, [getIterable], the recursive emission loop of
    [FromObservable], the constructor [observableFrom], and then the
    event-pattern observable with its disposable. *)

From stdpp Require Import gmap strings list.
From Stdlib Require Import QArith Qround Qabs.

Local Open Scope Q_scope.

(** ** JavaScript numbers

    An IEEE-754 double is NaN, one of the two infinities, or a finite
    dyadic rational.  Every arithmetic operation [toLength] performs
    ([Math.abs], [Math.floor], a product with [-1] or [1], comparisons)
    is exact on doubles, so a finite double is modelled by the rational
    it denotes.  JavaScript's [-0] is identified with [0]: [===], [<],
    [<=] and [>] do not tell them apart. *)

Inductive number : Type :=
| NaN
| PInf
| NInf
| Fin (q : Q).

Definition of_Z (z : Z) : number := Fin (inject_Z z).
Definition of_nat (n : nat) : number := of_Z (Z.of_nat n).

(** Structural identity of two numbers, up to the representation of a
    rational (unlike [===], it relates [NaN] to itself). *)
Definition num_eq (a b : number) : Prop :=
  match a, b with
  | NaN, NaN | PInf, PInf | NInf, NInf => True
  | Fin p, Fin q => p == q
  | _, _ => False
  end.

Infix "=n=" := num_eq (at level 70, no associativity).

(** The global [isNaN] applied to a number. *)
Definition isNaN (n : number) : bool :=
  match n with NaN => true | _ => false end.

(** The global [isFinite] applied to a number. *)
Definition isFinite (n : number) : bool :=
  match n with Fin _ => true | _ => false end.

(** [a === b] on numbers. *)
Definition num_strict_eq (a b : number) : bool :=
  match a, b with
  | PInf, PInf | NInf, NInf => true
  | Fin p, Fin q => Qeq_bool p q
  | _, _ => false
  end.

(** [a < b] on numbers. *)
Definition num_lt (a b : number) : bool :=
  match a, b with
  | NaN, _ | _, NaN => false
  | PInf, _ | _, NInf => false
  | NInf, _ | _, PInf => true
  | Fin p, Fin q => negb (Qle_bool q p)
  end.

(** [a <= b] on numbers. *)
Definition num_le (a b : number) : bool :=
  match a, b with
  | NaN, _ | _, NaN => false
  | NInf, _ | _, PInf => true
  | PInf, _ | _, NInf => false
  | Fin p, Fin q => Qle_bool p q
  end.

(** [a > b] on numbers. *)
Definition num_gt (a b : number) : bool := num_lt b a.

(** [a * b] on numbers. *)
Definition num_mul (a b : number) : number :=
  let sgn (q : Q) (pos neg : number) : number :=
    if Qeq_bool q 0 then NaN else if Qle_bool 0 q then pos else neg in
  match a, b with
  | NaN, _ | _, NaN => NaN
  | PInf, PInf | NInf, NInf => PInf
  | PInf, NInf | NInf, PInf => NInf
  | PInf, Fin q | Fin q, PInf => sgn q PInf NInf
  | NInf, Fin q | Fin q, NInf => sgn q NInf PInf
  | Fin p, Fin q => Fin (p * q)
  end.

Definition Math_floor (n : number) : number :=
  match n with
  | Fin q => of_Z (Qfloor q)
  | _ => n
  end.

Definition Math_abs (n : number) : number :=
  match n with
  | NInf => PInf
  | Fin q => Fin (Qabs q)
  | _ => n
  end.

(** ** JavaScript values

    Primitives, and objects reduced to the three things [from] looks at:
    the [$iterator$] method, the [length] property and the properties
    named by an array index.  A script is the behaviour of an iterator
    obtained from a user object: the outcome of its k-th call of
    [next()], counted from 0. *)

Inductive value : Type :=
| VUndefined
| VNull
| VBool (b : bool)
| VNum (n : number)
| VStr (s : string)
| VObj (o : object)
with object : Type :=
| mkObject (iter : option (nat -> outcome)) (len : value)
           (index : gmap nat value)
with outcome : Type :=
| Yield (v : value)          (* [{ done: false, value: v }] *)
| Done                       (* a result whose [done] is truthy *)
| Throw (e : exn)            (* the call threw [e] *)
with exn : Type :=
| Error (msg : string)       (* [new Error(msg)] *)
| TypeError (msg : string)   (* [new TypeError(msg)] *)
| Thrown (v : value).        (* any other thrown value *)

Definition script : Type := nat -> outcome.

Definition o_iterator (o : object) : option script :=
  let 'mkObject i _ _ := o in i.
Definition o_length (o : object) : value :=
  let 'mkObject _ l _ := o in l.
Definition o_index (o : object) : gmap nat value :=
  let 'mkObject _ _ ix := o in ix.

(** A computation that may throw. *)
Inductive result (A : Type) : Type :=
| Return (a : A)
| Raise (e : exn).
Arguments Return {A} a.
Arguments Raise {A} e.

(** [typeof v]. *)
Definition typeof (v : value) : string :=
  match v with
  | VUndefined => "undefined"
  | VNull => "object"
  | VBool _ => "boolean"
  | VNum _ => "number"
  | VStr _ => "string"
  | VObj _ => "object"
  end.

(** [s.charAt(i)]: the one-character string at index [i], the empty
    string out of range. *)
Definition charAt (s : string) (i : nat) : string := String.substring i 1 s.

(** The characters of [s], each as a one-character string value. *)
Definition chars (s : string) : list value :=
  (fun i => VStr (charAt s i)) <$> seq 0 (String.length s).

(** What the host environment decides and the source file does not:
    the numeric conversion of strings and of objects, and whether
    strings carry the [$iterator$] method (they do where [$iterator$]
    is [Symbol.iterator]; they do not where it is the shim's name). *)
Class Host : Type := {
  StringToNumber : string -> number;
  ObjectToNumber : object -> number;
  string_iterator : string -> option script
}.

Section From.

Context `{host : Host}.

(** Unary [+v].  The conversion of an object is the host's and is
    taken to answer a number: a [valueOf] that throws, and the Symbol
    and BigInt values on which [+v] throws, are outside the values
    modelled here. *)
Definition ToNumber (v : value) : number :=
  match v with
  | VUndefined => NaN
  | VNull => Fin 0
  | VBool b => if b then Fin 1 else Fin 0
  | VNum n => n
  | VStr s => StringToNumber s
  | VObj o => ObjectToNumber o
  end.

(** [Object(v)]: an object is returned as it is, a string is wrapped in
    a String object (its [length], one indexed property per character),
    [null] and [undefined] give an empty object, and the other wrappers
    have neither a [length] nor indexed properties. *)
Definition ToObject (v : value) : value :=
  match v with
  | VObj o => VObj o
  | VStr s =>
      VObj (mkObject (string_iterator s) (VNum (of_nat (String.length s)))
                     (map_seq 0 (chars s)))
  | _ => VObj (mkObject None VUndefined ∅)
  end.

(** [o[$iterator$]] on a value other than [null] and [undefined]. *)
Definition get_iterator (v : value) : option script :=
  match v with
  | VObj o => o_iterator o
  | VStr s => string_iterator s
  | _ => None
  end.

(** [o.length]. *)
Definition get_length (v : value) : value :=
  match v with
  | VObj o => o_length o
  | VStr s => VNum (of_nat (String.length s))
  | _ => VUndefined
  end.

(** [o[i]] for an array index [i]; a missing property reads as
    [undefined]. *)
Definition get_index (v : value) (i : nat) : value :=
  match v with
  | VObj o => default VUndefined (o_index o !! i)
  | VStr s => default VUndefined (chars s !! i)
  | _ => VUndefined
  end.

Definition maxSafeInteger : number := of_Z (2 ^ 53 - 1).

Definition numberIsFinite (v : value) : bool :=
  match v with
  | VNum n => isFinite n       (* typeof value === 'number' && isFinite *)
  | _ => false
  end.

(** [n !== n]. *)
Definition isNan (n : number) : bool := negb (num_strict_eq n n).

Definition sign (v : value) : number :=
  let number := ToNumber v in
  if num_strict_eq number (Fin 0) then number
  else if isNaN number then number
  else if num_lt number (Fin 0) then Fin (-1) else Fin 1.

Definition toLength (o : value) : number :=
  let len := ToNumber (get_length o) in
  if isNaN len then Fin 0
  else if num_strict_eq len (Fin 0) || negb (numberIsFinite (VNum len))
  then len
  else
    let len := num_mul (sign (VNum len)) (Math_floor (Math_abs len)) in
    if num_le len (Fin 0) then Fin 0
    else if num_gt len maxSafeInteger then maxSafeInteger
    else len.

(** ** The built-in iterators

    Both iterator classes keep the source ([_s] or [_a]), its length
    [_l] and the cursor [_i].  The cursor only ever counts up from 0 by
    one, so it is a natural number (exact below [2^53], where every
    finite [_l] that [toLength] answers lies); it is compared with [_l]
    as a JavaScript number.  The third kind of iterator is the one a user
    object hands out through its own [$iterator$] method. *)

Inductive iterator : Type :=
| StringIt (_s : string) (_l : number) (_i : nat)
| ArrayIt (_a : value) (_l : number) (_i : nat)
| ScriptIt (f : script) (k : nat).

Inductive iterable : Type :=
| StringIterable (_s : string)
| ArrayIterable (_a : value).

(** [new StringIterator(s)]. *)
Definition StringIterator (s : string) : iterator :=
  StringIt s (of_nat (String.length s)) 0.

(** [new ArrayIterator(a)]. *)
Definition ArrayIterator (a : value) : iterator :=
  ArrayIt a (toLength a) 0.

(** [it[$iterator$]()] of the two iterable wrappers. *)
Definition iterable_iterator (it : iterable) : iterator :=
  match it with
  | StringIterable s => StringIterator s
  | ArrayIterable a => ArrayIterator a
  end.

(** [StringIterator.prototype.next].  [doneEnumerator] is absent from
    the source; it is the result that says the iteration is over, here
    the outcome [Done]. *)
Definition StringIterator_next (s : string) (l : number) (i : nat)
  : iterator * outcome :=
  if num_lt (of_nat i) l
  then (StringIt s l (S i), Yield (VStr (charAt s i)))
  else (StringIt s l i, Done).

(** [ArrayIterator.prototype.next]. *)
Definition ArrayIterator_next (a : value) (l : number) (i : nat)
  : iterator * outcome :=
  if num_lt (of_nat i) l
  then (ArrayIt a l (S i), Yield (get_index a i))
  else (ArrayIt a l i, Done).

(** [it.next()]: the iterator after the call, and what the call did. *)
Definition next (it : iterator) : iterator * outcome :=
  match it with
  | StringIt s l i => StringIterator_next s l i
  | ArrayIt a l i => ArrayIterator_next a l i
  | ScriptIt f k => (ScriptIt f (S k), f k)
  end.

(** [v !== undefined]. *)
Definition is_defined (v : value) : bool :=
  match v with VUndefined => false | _ => true end.

(** Reading a property of [null] or [undefined] throws; the message is
    the host's. *)
Definition null_property_error : exn :=
  TypeError "Cannot read property of null or undefined".

(** [getIterable].  An iterator method is modelled by the iterator it
    hands out: the call [o[$iterator$]()] is taken to return, so a
    method that throws when it is called, like a [length] whose reading
    throws, is outside the objects modelled here. *)
Definition getIterable (o : value) : result iterator :=
  match o with
  | VUndefined | VNull => Raise null_property_error
  | _ =>
      let i := get_iterator o in
      match i, o with
      | None, VStr s =>                 (* !i && typeof o === 'string' *)
          Return (iterable_iterator (StringIterable s))
      | None, _ =>
          if is_defined (get_length o)  (* !i && o.length !== undefined *)
          then Return (iterable_iterator (ArrayIterable o))
          else Raise (TypeError "Object is not iterable")
      | Some f, _ => Return (ScriptIt f 0)
      end
  end.

(** ** Observers

    The observer of a subscription is a collecting one: its state is
    the list of the signals it has received, oldest first. *)

Inductive signal : Type :=
| OnNext (v : value)
| OnError (e : exn)
| OnCompleted.

Definition observer : Type := list signal.

Definition onNext (v : value) (o : observer) : observer := o ++ [OnNext v].
Definition onError (e : exn) (o : observer) : observer := o ++ [OnError e].
Definition onCompleted (o : observer) : observer := o ++ [OnCompleted].

(** ** Schedulers *)

Inductive Scheduler : Type :=
| currentThreadScheduler
| customScheduler (id : nat).

(** The third argument of [from]: a scheduler, or any other value. *)
Inductive scheduler_arg : Type :=
| ArgScheduler (s : Scheduler)
| ArgValue (v : value).

(** Modelled from the spec: [isScheduler] and [currentThreadScheduler]
    are absent from the source; "if no valid scheduler is supplied,
    default to a synchronous current-thread/trampoline scheduler".  This
    is [isScheduler(scheduler) || (scheduler = currentThreadScheduler)]
    followed by the read of [scheduler]. *)
Definition scheduler_or_default (a : scheduler_arg) : Scheduler :=
  match a with
  | ArgScheduler s => s
  | ArgValue _ => currentThreadScheduler
  end.

(** Modelled from the spec: [scheduleRecursive] is absent from the
    source.  "[scheduleRecursive(initialState, worker)], where
    [worker(state, recurse)] must call [recurse(nextState)] to continue
    or simply return to stop", run as a trampoline: "an enqueue
    operation drained by an outer loop".  A worker is a function of its
    state and of the world [W] it acts on; it answers [Some s'] when it
    called [recurse(s')].  [fuel] bounds the number of steps the outer
    loop is observed for, and the answer [Some s] says that the step for
    state [s] is still queued.  The schedulers differ in when they run
    the queued step, not in what it does. *)
Fixpoint scheduleRecursive {S W : Type} (sched : Scheduler) (fuel : nat)
    (state : S) (worker : S -> W -> W * option S) (w : W) : W * option S :=
  match fuel with
  | O => (w, Some state)
  | Datatypes.S fuel' =>
      match worker state w with
      | (w', None) => (w', None)
      | (w', Some state') => scheduleRecursive sched fuel' state' worker w'
      end
  end.

(** ** FromObservable *)

Record FromObservable : Type := mkFromObservable {
  _iterable : value;
  _scheduler : Scheduler
}.

(** What [createScheduleMethod(o, it)] closes over: the observer and the
    iterator, both mutable. *)
Record subscription : Type := mkSubscription {
  sub_o : observer;
  sub_it : iterator
}.

(** [createScheduleMethod(o, it)] returns [loopRecursive].  [tryCatch]
    and [errorObj] are absent from the source; from the spec, "if the
    underlying pull throws, deliver [onError] with the thrown error and
    stop": [tryCatch(it.next).call(it)] is [errorObj], carrying the
    error, exactly when [it.next()] threw, here the outcome [Throw]. *)
Definition loopRecursive (i : nat) (w : subscription)
  : subscription * option nat :=
  let (it, next) := next (sub_it w) in
  match next with
  | Throw e => (mkSubscription (onError e (sub_o w)) it, None)
  | Done => (mkSubscription (onCompleted (sub_o w)) it, None)
  | Yield v => (mkSubscription (onNext v (sub_o w)) it, Some (i + 1)%nat)
  end.

Definition createScheduleMethod : nat -> subscription -> subscription * option nat :=
  loopRecursive.

(** [FromObservable.prototype.subscribeCore]. *)
Definition subscribeCore (this : FromObservable) (o : observer) (fuel : nat)
  : result (subscription * option nat) :=
  let list := ToObject (_iterable this) in
  match getIterable list with
  | Raise e => Raise e
  | Return it =>
      Return (scheduleRecursive (_scheduler this) fuel 0%nat
                createScheduleMethod (mkSubscription o it))
  end.

(** [iterable == null]: true of [null] and [undefined] only. *)
Definition eq_null (v : value) : bool :=
  match v with VNull | VUndefined => true | _ => false end.

(** [Observable.from]. *)
Definition observableFrom (iterable thisArg : value) (scheduler : scheduler_arg)
  : result FromObservable :=
  if eq_null iterable then Raise (Error "iterable cannot be null.")
  else
    let scheduler := scheduler_or_default scheduler in
    Return (mkFromObservable iterable scheduler).

(** Modelled from the spec: [ObservableBase.subscribe] is absent from
    the source; "[subscribe(observer)] validates the observer, delegates
    to [subscribeCore]".  This is
    [from(iterable, thisArg, scheduler).subscribe(o)], observed for
    [fuel] steps of the scheduler. *)
Definition from_subscribe (iterable thisArg : value) (scheduler : scheduler_arg)
    (o : observer) (fuel : nat) : result (subscription * option nat) :=
  match observableFrom iterable thisArg scheduler with
  | Raise e => Raise e
  | Return obs => subscribeCore obs o fuel
  end.

End From.

(** ** EventPatternObservable

    Several observers and the event source act on one world: the
    collecting observers by identity, the calls the event source has
    received, the closures created so far, and the heap of disposables
    (a disposable is a mutable object; its reference is its index in
    the heap).  The user's functions [add] and [del] are called for
    their effect on the event source, which the world records as the
    list of calls.  The source has no handler around either call: [add]
    is taken to return normally, and a [del] that throws ends
    [dispose()] at the call. *)

(** Who a forwarding handler pushes to: a collecting observer, or the
    subject that [publish()] puts between the source and its
    subscribers. *)
Inductive observer_ref : Type :=
| ObserverRef (id : nat)
| SubjectRef.

(** The closure [handler] that [createHandler(o)] returns: its identity
    and the [o] it captured. *)
Record handler : Type := mkHandler {
  h_id : nat;
  h_o : observer_ref
}.

(** An argument that is expected to be a function: a function that
    returns normally when it is called, a function that throws [e] when
    it is called, or a value that is no function. *)
Inductive callback : Type :=
| Function (f : nat)
| Throwing (f : nat) (e : exn)
| NotFunction (v : value).

(** Modelled from the spec: [isFunction] is absent from the source; "if
    [removeHandler] is a callable". *)
Definition isFunction (c : callback) : bool :=
  match c with
  | Function _ | Throwing _ _ => true
  | NotFunction _ => false
  end.

(** What a call of the callback throws, if anything. *)
Definition throws (c : callback) : option exn :=
  match c with
  | Throwing _ e => Some e
  | Function _ | NotFunction _ => None
  end.

(** A call received by the event source: [add(fn)], or
    [del(fn, ret)]. *)
Inductive call : Type :=
| CallAdd (fn : handler)
| CallDel (del : callback) (fn : handler) (ret : value).

(** The fields [_del], [_fn], [_ret] and [isDisposed] of the
    disposable. *)
Record EventPatternDisposable : Type := mkEventPatternDisposable {
  d_del : callback;
  d_fn : handler;
  d_ret : value;
  isDisposed : bool
}.

(** The state of the shared (published, reference-counted) observable:
    the subscriptions of the subject, each with its handle and its
    observer, the number of handles given out, the subscriber count and
    the disposable of the connection to the source. *)
Record refcount : Type := mkRefcount {
  rc_subject : list (nat * nat);
  rc_handles : nat;
  rc_count : nat;
  rc_connection : option nat
}.

Record world : Type := mkWorld {
  observers : gmap nat observer;
  calls : list call;
  closures : nat;
  heap : list EventPatternDisposable;
  shared : refcount
}.


Definition set_observers (f : gmap nat observer -> gmap nat observer) (w : world) : world :=
  mkWorld (f (observers w)) (calls w) (closures w) (heap w) (shared w).
Definition set_calls (f : list call -> list call) (w : world) : world :=
  mkWorld (observers w) (f (calls w)) (closures w) (heap w) (shared w).
Definition set_closures (f : nat -> nat) (w : world) : world :=
  mkWorld (observers w) (calls w) (f (closures w)) (heap w) (shared w).
Definition set_heap (f : list EventPatternDisposable -> list EventPatternDisposable)
    (w : world) : world :=
  mkWorld (observers w) (calls w) (closures w) (f (heap w)) (shared w).
Definition set_shared (f : refcount -> refcount) (w : world) : world :=
  mkWorld (observers w) (calls w) (closures w) (heap w) (f (shared w)).

(** The signals observer [id] has received. *)
Definition received (w : world) (id : nat) : observer :=
  default [] (observers w !! id).

(** [o.onNext(v)] for a referenced observer; the subject hands the value
    to each of its current subscribers. *)
Definition ref_onNext (o : observer_ref) (v : value) (w : world) : world :=
  let deliver (w : world) (id : nat) : world :=
    set_observers (fun m => <[id := onNext v (received w id)]> m) w in
  match o with
  | ObserverRef id => deliver w id
  | SubjectRef => foldl (fun w s => deliver w s.2) w (rc_subject (shared w))
  end.

Record EventPatternObservable : Type := mkEventPatternObservable {
  _add : handler -> value;      (* what the user's [add] returns *)
  _del : callback
}.

(** [createHandler(o)]: a new closure. *)
Definition createHandler (o : observer_ref) (w : world) : handler * world :=
  (mkHandler (closures w) o, set_closures S w).

(** A call [handler(arguments...)] of the closure. *)
Definition handler_call (fn : handler) (arguments : list value) (w : world)
  : world :=
  let results := default VUndefined (arguments !! 0%nat) in
  ref_onNext (h_o fn) results w.

(** [new EventPatternDisposable(del, fn, ret)]: the reference of the new
    object. *)
Definition new_EventPatternDisposable (del : callback) (fn : handler)
    (ret : value) (w : world) : nat * world :=
  (length (heap w),
   set_heap (fun h => h ++ [mkEventPatternDisposable del fn ret false]) w).

(** [EventPatternObservable.prototype.subscribeCore]. *)
Definition EventPattern_subscribeCore (this : EventPatternObservable)
    (o : observer_ref) (w : world) : nat * world :=
  let (fn, w) := createHandler o w in
  let returnValue := _add this fn in
  let w := set_calls (fun c => c ++ [CallAdd fn]) w in
  new_EventPatternDisposable (_del this) fn returnValue w.

(** [EventPatternDisposable.prototype.dispose], on the disposable that
    [d] refers to: the world the call leaves.  The assignment
    [this.isDisposed = true] follows the call of [_del] in the same
    block, so it is reached only when that call returned (or was not
    made, [_del] being no function). *)
Definition dispose (d : nat) (w : world) : world :=
  match heap w !! d with
  | None => w
  | Some this =>
      if negb (isDisposed this) then
        let w :=
          if isFunction (d_del this)
          then set_calls (fun c => c ++ [CallDel (d_del this) (d_fn this)
                                           (d_ret this)]) w
          else w in
        match (if isFunction (d_del this) then throws (d_del this) else None) with
        | Some _ => w
        | None =>
            set_heap
              (fun h => <[d := mkEventPatternDisposable (d_del this)
                                 (d_fn this) (d_ret this) true]> h) w
        end
      else w
  end.



(** ** fromEventPattern *)

(** Modelled from the spec: [publish()] and [refCount()] are absent from
    the source.  "Multiple independent subscribers share exactly one
    underlying registration with the event source and the registration
    is torn down only when the last subscriber unsubscribes
    (reference-counted multicast), and re-established if a new
    subscriber arrives after the count dropped to zero";
    "increment-then-register on first subscriber,
    unregister-then-decrement on last unsubscribe". *)
Record RefCountObservable : Type := mkRefCountObservable {
  rc_source : EventPatternObservable
}.

(** Modelled from the spec: subscribing observer [o] to the shared
    observable; the answer is the handle of the subscription. *)
Definition RefCount_subscribe (this : RefCountObservable) (o : nat) (w : world)
  : nat * world :=
  let h := rc_handles (shared w) in
  let w :=
    set_shared (fun r =>
      mkRefcount (rc_subject r ++ [(h, o)]) (S (rc_handles r))
                 (S (rc_count r)) (rc_connection r)) w in
  let w :=
    if (rc_count (shared w) =? 1)%nat then
      let (d, w) := EventPattern_subscribeCore (rc_source this) SubjectRef w in
      set_shared (fun r =>
        mkRefcount (rc_subject r) (rc_handles r) (rc_count r) (Some d)) w
    else w in
  (h, w).

(** Modelled from the spec: disposing the subscription with handle [h];
    a handle that is not subscribed any more does nothing.  The spec
    does not say what the count is after a [removeHandler] that threw;
    here the subscriber is counted out either way. *)
Definition RefCount_dispose (h : nat) (w : world) : world :=
  if bool_decide (h ∈ (rc_subject (shared w)).*1) then
    let w :=
      set_shared (fun r =>
        mkRefcount (filter (fun s => s.1 ≠ h) (rc_subject r)) (rc_handles r)
                   (rc_count r) (rc_connection r)) w in
    let w :=
      if (rc_count (shared w) =? 1)%nat then
        match rc_connection (shared w) with
        | Some d => dispose d w
        | None => w
        end
      else w in
    set_shared (fun r =>
      mkRefcount (rc_subject r) (rc_handles r) (pred (rc_count r))
                 (rc_connection r)) w
  else w.

(** [Observable.fromEventPattern]. *)
Definition fromEventPattern (addHandler : handler -> value)
    (removeHandler : callback) : RefCountObservable :=
  mkRefCountObservable (mkEventPatternObservable addHandler removeHandler).

(** ** A host for the examples

    A host without [Symbol.iterator]: strings carry no [$iterator$]
    method.  Its numeric conversion reads a string of decimal digits as
    the integer it writes (the empty string as 0) and gives [NaN] for
    the strings it does not read and for objects. *)

Definition digit_of (c : Ascii.ascii) : option Z :=
  let n := Z.of_nat (Ascii.nat_of_ascii c) in
  if ((48 <=? n) && (n <=? 57))%Z then Some (n - 48)%Z else None.

Fixpoint decimal (s : string) (acc : Z) : option Z :=
  match s with
  | EmptyString => Some acc
  | String c s' =>
      match digit_of c with
      | Some d => decimal s' (10 * acc + d)%Z
      | None => None
      end
  end.

#[export] Instance shim_host : Host := {|
  StringToNumber s := match decimal s 0 with Some z => of_Z z | None => NaN end;
  ObjectToNumber _ := NaN;
  string_iterator _ := None
|}.

(** ** What an iterator hands out

    [drains it vs t it']: pulling [it] yields the values [vs], in order,
    and then the call of [next()] that ends the iteration has the
    outcome [t] ([Done] or [Throw e]), leaving the iterator as [it']. *)

Inductive drains : iterator -> list value -> outcome -> iterator -> Prop :=
| drains_done it it' :
    next it = (it', Done) -> drains it [] Done it'
| drains_throw it it' e :
    next it = (it', Throw e) -> drains it [] (Throw e) it'
| drains_yield it it1 v vs t it' :
    next it = (it1, Yield v) -> drains it1 vs t it' ->
    drains it (v :: vs) t it'.

(** The signal that reports how the iteration ended. *)
Definition terminal (t : outcome) : signal :=
  match t with
  | Throw e => OnError e
  | _ => OnCompleted
  end.

(** An array-like with three elements, and an iterable whose iterator
    yields twice and throws on the third pull. *)
Definition sample_array : object :=
  mkObject None (VNum (of_nat 3))
           (map_seq 0 [VNum (of_nat 10); VStr "x"; VBool true]).

Definition failing_script : script :=
  fun k =>
    match k with
    | 0%nat => Yield (VNum (of_nat 1))
    | 1%nat => Yield (VNum (of_nat 2))
    | 2%nat => Throw (Error "boom")
    | _ => Done
    end.

Definition failing_iterable : object :=
  mkObject (Some failing_script) VUndefined ∅.

(** The iterator method of the host's strings, where there is one,
    goes through the string one character at a time. *)
Definition string_iterator_per_character `{host : Host} (s : string) : Prop :=
  match string_iterator s with
  | None => True
  | Some f =>
      forall k, f k = if (k <? String.length s)%nat
                      then Yield (VStr (charAt s k)) else Done
  end.

(** ** A host with [Symbol.iterator]

    Where [$iterator$] is [Symbol.iterator], a String object carries
    the iterator method of [String.prototype], which goes through the
    string by code points: a high surrogate followed by a low surrogate
    comes out together, as one string of two code units.

    A character of a string stands for one UTF-16 code unit.  This host
    reads the characters below 128 as the code units of the same
    number, the characters 128 to 191 as the high surrogates from
    [0xD800] on and the characters 192 to 255 as the low surrogates from
    [0xDC00] on. *)

Definition code_unit (c : Ascii.ascii) : Z :=
  let n := Z.of_nat (Ascii.nat_of_ascii c) in
  if (n <? 128)%Z then n
  else if (n <? 192)%Z then (0xD800 + (n - 128))%Z
  else (0xDC00 + (n - 192))%Z.

Definition is_high_surrogate (c : Ascii.ascii) : bool :=
  ((0xD800 <=? code_unit c) && (code_unit c <=? 0xDBFF))%Z.

Definition is_low_surrogate (c : Ascii.ascii) : bool :=
  ((0xDC00 <=? code_unit c) && (code_unit c <=? 0xDFFF))%Z.

(** The code points of [s], in order, each as the string of its code
    units. *)
Fixpoint code_points (s : string) : list value :=
  match s with
  | EmptyString => []
  | String c s' =>
      match s' with
      | String c' s'' =>
          if is_high_surrogate c && is_low_surrogate c'
          then VStr (String c (String c' "")) :: code_points s''
          else VStr (String c "") :: code_points s'
      | EmptyString => [VStr (String c "")]
      end
  end.

(** Whether a high surrogate is followed by a low surrogate somewhere
    in [s]. *)
Fixpoint has_surrogate_pair (s : string) : bool :=
  match s with
  | EmptyString => false
  | String c s' =>
      match s' with
      | String c' _ =>
          (is_high_surrogate c && is_low_surrogate c') || has_surrogate_pair s'
      | EmptyString => false
      end
  end.

Definition es2015_host : Host := {|
  StringToNumber s := match decimal s 0 with Some z => of_Z z | None => NaN end;
  ObjectToNumber _ := NaN;
  string_iterator s :=
    Some (fun k => match code_points s !! k with
                   | Some v => Yield v
                   | None => Done
                   end)
|}.


(** The two iterator classes of the file, as opposed to the iterator of
    a user object. *)
Definition builtin (it : iterator) : bool :=
  match it with
  | StringIt _ _ _ | ArrayIt _ _ _ => true
  | ScriptIt _ _ => false
  end.

(** The cursor [_i] of a built-in iterator (the number of calls made,
    for a user iterator). *)
Definition cursor (it : iterator) : nat :=
  match it with
  | StringIt _ _ i | ArrayIt _ _ i | ScriptIt _ i => i
  end.

(** The strings among the values [vs], joined in order. *)
Definition joined (vs : list value) : string :=
  foldr (fun v acc => match v with VStr c => c +:+ acc | _ => acc end) "" vs.

(** ** The patch generator

    Source: [tools/generate-operator-patches.ts].  The functions of the
    tool that compute on strings and records; reading and writing files
    is left to the caller, which hands in the contents it read. *)

Module Patches.

Definition nl : string := String (Ascii.ascii_of_nat 10) "".

(** [s.indexOf(pat) > -1], which is also [/pat/.test(s)] for a pattern
    that is a literal. *)
Fixpoint includes (pat s : string) : bool :=
  if String.prefix pat s then true
  else match s with
       | EmptyString => false
       | String _ s' => includes pat s'
       end.

(** [s] without its first [n] characters. *)
Fixpoint skip (n : nat) (s : string) : string :=
  match n, s with
  | O, _ => s
  | S n', String _ s' => skip n' s'
  | S _, EmptyString => EmptyString
  end.

(** [s.replace(pat, rep)] for a string [pat]: the first occurrence
    only. *)
Fixpoint replace (pat rep s : string) : string :=
  if String.prefix pat s then rep +:+ skip (String.length pat) s
  else match s with
       | EmptyString => EmptyString
       | String c s' => String c (replace pat rep s')
       end.

(** [s.endsWith(suffix)]. *)
Definition endsWith (suffix s : string) : bool :=
  String.eqb (skip (String.length s - String.length suffix) s) suffix.

(** A letter of [A-Z] under the flag [i], and the class [[A-Z_]]. *)
Definition is_letter (c : Ascii.ascii) : bool :=
  let n := Ascii.nat_of_ascii c in
  ((65 <=? n) && (n <=? 90) || (97 <=? n) && (n <=? 122))%nat.

Definition is_letter_or_underscore (c : Ascii.ascii) : bool :=
  is_letter c || (Ascii.nat_of_ascii c =? 95)%nat.

(** Equality of characters under the flag [i]. *)
Definition lower (c : Ascii.ascii) : nat :=
  let n := Ascii.nat_of_ascii c in
  if ((65 <=? n) && (n <=? 90))%nat then (n + 32)%nat else n.

Fixpoint prefix_ci (pat s : string) : bool :=
  match pat, s with
  | EmptyString, _ => true
  | String a pat', String b s' => (lower a =? lower b)%nat && prefix_ci pat' s'
  | String _ _, EmptyString => false
  end.

(** The text after the leftmost match of the literal [pat] under the
    flag [i]. *)
Fixpoint after_match_ci (pat s : string) : option string :=
  if prefix_ci pat s then Some (skip (String.length pat) s)
  else match s with
       | EmptyString => None
       | String _ s' => after_match_ci pat s'
       end.

(** A greedy starred group over a character class. *)
Fixpoint take_while (f : Ascii.ascii -> bool) (s : string) : string :=
  match s with
  | EmptyString => EmptyString
  | String c s' => if f c then String c (take_while f s') else EmptyString
  end.

Inductive MethodType : Type := Observable | Operator.

Record OperatorWrapper : Type := mkOperatorWrapper {
  path : option string;
  methodType : MethodType;
  isExtended : option bool;
  isStatic : option bool;
  exportedFnName : option string;
  exportedClassName : option string;
  memberName : option string;
  aliases : option (list string);
  newFileContents : option string;
  srcFileContents : option string;
  kitchenSinkFileContents : option string
}.

Definition MethodTypeDirectories (m : MethodType) : string :=
  match m with
  | Observable => "observable"
  | Operator => "operator"
  end.

(** The three tables, as finite maps: a lookup answers what the table
    itself holds.  The object literals of the source answer, besides,
    the members every object inherits at their names ([constructor],
    [toString], [valueOf], ...); none of these names ends in [.ts], so
    the maps and the object literals agree at every key that ends in
    [.ts], and the properties of the lookups are stated for such keys.
    The inner table of [fromArray.ts] is read at the aliases of that
    file. *)
Definition SpecialCasePrototypes : gmap string string :=
  list_to_map [("zip.ts", "zip"); ("switch.ts", "switch"); ("do.ts", "do");
               ("finally.ts", "finally"); ("catch.ts", "catch");
               ("let.ts", "let")].

Definition AdditionalAliases : gmap string (list string) :=
  list_to_map [("mergeMap.ts", ["flatMap"]); ("fromArray.ts", ["of"]);
               ("let.ts", ["letBind"])].

Definition AliasMethodOverrides : gmap string (gmap string string) :=
  list_to_map [("fromArray.ts", list_to_map [("of", "of")])].

(** A value in a template, [undefined] printing as its name; the same
    conversion makes the key of a table lookup and the subject of a
    regular expression. *)
Definition show (o : option string) : string := default "undefined" o.

(** Truthiness of a string that may be [undefined], and of a flag. *)
Definition truthy (o : option string) : bool :=
  match o with
  | Some s => negb (String.eqb s "")
  | None => false
  end.

Definition flag (o : option bool) : bool := default false o.

(** [a || b]. *)
Definition or_else (a b : option string) : option string :=
  if truthy a then a else b.

(** Calling a method of [undefined] throws; the message is the
    host's. *)
Definition undefined_error : exn :=
  TypeError "Cannot read property of undefined".

(** [Object.assign({}, op, { field: v })], field by field. *)
Definition with_newFileContents (v : string) (op : OperatorWrapper) :=
  mkOperatorWrapper (path op) (methodType op) (isExtended op) (isStatic op)
    (exportedFnName op) (exportedClassName op) (memberName op) (aliases op)
    (Some v) (srcFileContents op) (kitchenSinkFileContents op).
Definition with_isStatic (v : bool) (op : OperatorWrapper) :=
  mkOperatorWrapper (path op) (methodType op) (isExtended op) (Some v)
    (exportedFnName op) (exportedClassName op) (memberName op) (aliases op)
    (newFileContents op) (srcFileContents op) (kitchenSinkFileContents op).
Definition with_isExtended (v : bool) (op : OperatorWrapper) :=
  mkOperatorWrapper (path op) (methodType op) (Some v) (isStatic op)
    (exportedFnName op) (exportedClassName op) (memberName op) (aliases op)
    (newFileContents op) (srcFileContents op) (kitchenSinkFileContents op).
Definition with_exportedFnName (v : option string) (op : OperatorWrapper) :=
  mkOperatorWrapper (path op) (methodType op) (isExtended op) (isStatic op)
    v (exportedClassName op) (memberName op) (aliases op)
    (newFileContents op) (srcFileContents op) (kitchenSinkFileContents op).
Definition with_exportedClassName (v : option string) (op : OperatorWrapper) :=
  mkOperatorWrapper (path op) (methodType op) (isExtended op) (isStatic op)
    (exportedFnName op) v (memberName op) (aliases op)
    (newFileContents op) (srcFileContents op) (kitchenSinkFileContents op).
Definition with_memberName (v : option string) (op : OperatorWrapper) :=
  mkOperatorWrapper (path op) (methodType op) (isExtended op) (isStatic op)
    (exportedFnName op) (exportedClassName op) v (aliases op)
    (newFileContents op) (srcFileContents op) (kitchenSinkFileContents op).
Definition with_aliases (v : list string) (op : OperatorWrapper) :=
  mkOperatorWrapper (path op) (methodType op) (isExtended op) (isStatic op)
    (exportedFnName op) (exportedClassName op) (memberName op) (Some v)
    (newFileContents op) (srcFileContents op) (kitchenSinkFileContents op).
Definition with_srcFileContents (v : string) (op : OperatorWrapper) :=
  mkOperatorWrapper (path op) (methodType op) (isExtended op) (isStatic op)
    (exportedFnName op) (exportedClassName op) (memberName op) (aliases op)
    (newFileContents op) (Some v) (kitchenSinkFileContents op).

(** The arrow function mapped over the aliases of an operator. *)
Definition operator_patch_line (op : OperatorWrapper) (alias : string)
  : string :=
  let baseObject := if flag (isExtended op) then "observableProto" else "Observable" in
  let optPrototype :=
    if flag (isStatic op) || flag (isExtended op) then "" else "prototype." in
  baseObject +:+ "." +:+ optPrototype +:+ alias +:+ " = "
    +:+ show (exportedFnName op) +:+ ";".

Definition generateNewOperatorFileContents (op : OperatorWrapper)
  : result OperatorWrapper :=
  match path op, aliases op with
  | None, _ | _, None => Raise undefined_error
  | Some p, Some als =>
      let imports :=
        "import {Observable} from '../../Observable';" +:+ nl
        +:+ "import {" +:+ show (exportedFnName op)
        +:+ "} from '../../operator/" +:+ replace ".ts" "" p +:+ "';" +:+ nl
        +:+ (if flag (isExtended op)
             then "import {KitchenSinkOperators} from '../../Rx.KitchenSink';"
             else "") in
      let extendedProto :=
        "const observableProto = (<KitchenSinkOperators<any>>Observable.prototype);" in
      let patch := String.concat nl (operator_patch_line op <$> als) in
      let contents :=
        imports
        +:+ (if flag (isExtended op) then nl +:+ extendedProto +:+ nl else "")
        +:+ patch +:+ nl in
      Return (with_newFileContents contents op)
  end.

(** [(overrides && overrides[alias]) || 'create']. *)
Definition observable_method (overrides : option (gmap string string))
    (alias : string) : string :=
  show (or_else (overrides ≫= (fun ov => ov !! alias)) (Some "create")).

(** The arrow function mapped over the aliases of an observable. *)
Definition observable_patch_line (op : OperatorWrapper) (alias : string)
  : string :=
  "Observable." +:+ alias +:+ " = " +:+ show (exportedClassName op) +:+ "."
    +:+ observable_method (AliasMethodOverrides !! show (path op)) alias
    +:+ ";".

Definition generateNewObservableFileContents (op : OperatorWrapper)
  : result OperatorWrapper :=
  match path op, aliases op with
  | None, _ | _, None => Raise undefined_error
  | Some p, Some als =>
      let imports :=
        "import {Observable} from '../../Observable';" +:+ nl
        +:+ "import {" +:+ show (exportedClassName op)
        +:+ "} from '../../observable/" +:+ replace ".ts" "" p +:+ "';" in
      let patch := String.concat nl (observable_patch_line op <$> als) in
      let contents := imports +:+ nl +:+ patch +:+ nl in
      Return (with_newFileContents contents op)
  end.

Definition checkStatic (op : OperatorWrapper) : OperatorWrapper :=
  with_isStatic (includes "-static.ts" (show (path op))) op.

(** The kitchen-sink contents are what [readFileSync] answered; its
    [indexOf] searches them for the text as a string's does. *)
Definition checkExtended (op : OperatorWrapper) : result OperatorWrapper :=
  match kitchenSinkFileContents op with
  | None => Raise undefined_error
  | Some k =>
      let extended := includes (show (memberName op) +:+ "?") k in
      Return (with_isExtended extended op)
  end.

(** The first group of the regular expression, [export function ]
    followed by a greedy group of the class [A-Z_], flag [i], as [exec]
    finds it in the source; without a match [exec] answers [null], and
    reading its element 1 throws. *)
Definition getOperatorName (op : OperatorWrapper) : result OperatorWrapper :=
  match after_match_ci "export function " (show (srcFileContents op)) with
  | None => Raise undefined_error
  | Some rest =>
      Return (with_exportedFnName
                (Some (take_while is_letter_or_underscore rest)) op)
  end.

Definition getClassName (op : OperatorWrapper) : result OperatorWrapper :=
  match after_match_ci "export class " (show (srcFileContents op)) with
  | None => Raise undefined_error
  | Some rest =>
      Return (with_exportedClassName (Some (take_while is_letter rest)) op)
  end.

Definition getNameOnOperatorProto (op : OperatorWrapper) : OperatorWrapper :=
  with_memberName
    (or_else (SpecialCasePrototypes !! show (path op)) (exportedFnName op)) op.

Definition getNameOnObservableProto (op : OperatorWrapper)
  : result OperatorWrapper :=
  match path op with
  | None => Raise undefined_error
  | Some p => Return (with_memberName (Some (replace ".ts" "" p)) op)
  end.

(** [[op.memberName, ...AdditionalAliases[op.path]].filter(v => !!v)].
    The tool runs as the ES5 code the compiler emits for the spread,
    [[op.memberName].concat(AdditionalAliases[op.path])]: a path that
    the table does not hold adds the one element [undefined], which the
    filter drops like every other falsy element. *)
Definition getAliases (op : OperatorWrapper) : OperatorWrapper :=
  let additional : list (option string) :=
    match AdditionalAliases !! show (path op) with
    | Some l => Some <$> l
    | None => [None]
    end in
  with_aliases
    (omap (fun v => if truthy v then v else None)
          (memberName op :: additional)) op.

Definition checkForCreate (op : OperatorWrapper) : bool :=
  includes "static create" (show (srcFileContents op)).

(** [loadSrcFile], the file read being handed in: [read dir path] is
    the contents of [./src/<dir>/<path>]. *)
Definition loadSrcFile (read : string -> string -> string)
    (op : OperatorWrapper) : OperatorWrapper :=
  with_srcFileContents
    (read (MethodTypeDirectories (methodType op)) (show (path op))) op.

(** Where [writeToDisk] writes. *)
Definition writeToDisk_path (op : OperatorWrapper) : string :=
  "./src/add/" +:+ MethodTypeDirectories (methodType op) +:+ "/"
    +:+ show (path op).

(** The chain of [map] and [filter] that the tool runs over the
    entries of [./src/operator], for one entry [o]: [None] when a
    filter drops the entry. *)
Definition operator_chain (read : string -> string -> string)
    (kitchenSinkContents : string) (o : string)
  : option (result OperatorWrapper) :=
  if negb (endsWith ".ts" o) then None
  else
    let op := mkOperatorWrapper (Some o) Operator None None None None None
                None None None (Some kitchenSinkContents) in
    let op := loadSrcFile read op in
    match after_match_ci "export function " (show (srcFileContents op)) with
    | None => None
    | Some _ =>
        let op := checkStatic op in
        Some (match getOperatorName op with
              | Raise e => Raise e
              | Return op =>
                  let op := getNameOnOperatorProto op in
                  let op := getAliases op in
                  match checkExtended op with
                  | Raise e => Raise e
                  | Return op => generateNewOperatorFileContents op
                  end
              end)
    end.

(** The same for the entries of [./src/observable]. *)
Definition observable_chain (read : string -> string -> string) (o : string)
  : option (result OperatorWrapper) :=
  let op := mkOperatorWrapper (Some o) Observable None None None None None
              None None None None in
  let op := loadSrcFile read op in
  if negb (checkForCreate op) then None
  else
    Some (match getClassName op with
          | Raise e => Raise e
          | Return op =>
              match getNameOnObservableProto op with
              | Raise e => Raise e
              | Return op =>
                  let op := getAliases op in
                  generateNewObservableFileContents op
              end
          end).

End Patches.

(** * Properties *)

Section NumberFacts.

Lemma num_eq_refl (a : number) : a =n= a.
Proof. destruct a; simpl; auto with qarith. Qed.

Lemma num_eq_sym (a b : number) : a =n= b -> b =n= a.
Proof. destruct a, b; simpl; auto with qarith. Qed.

Lemma num_eq_trans (a b c : number) : a =n= b -> b =n= c -> a =n= c.
Proof.
  destruct a, b, c; simpl; try tauto.
  intros H1 H2. now rewrite H1.
Qed.

Lemma Qle_bool_inject (x y : Z) : Qle_bool (inject_Z x) (inject_Z y) = (x <=? y)%Z.
Proof.
  apply eq_true_iff_eq. rewrite Qle_bool_iff, <- Zle_Qle. symmetry.
  apply Z.leb_le.
Qed.

(** The file's own [isNan] agrees with the global [isNaN]. *)
Lemma isNan_isNaN (n : number) : isNan n = isNaN n.
Proof.
  destruct n as [| | |q]; try reflexivity.
  unfold isNan. simpl. now rewrite Qeq_bool_refl.
Qed.

(** The cursor test [_i < _l] when [_l] denotes the natural number [n]. *)
Lemma num_lt_of_nat (i n : nat) (l : number) :
  l =n= of_nat n -> num_lt (of_nat i) l = bool_decide (i < n)%nat.
Proof.
  destruct l as [| | |q]; simpl; try tauto.
  intros Hq. rewrite (Qleb_comp _ _ Hq _ _ (Qeq_refl _)), Qle_bool_inject.
  case_bool_decide; [apply negb_true_iff | apply negb_false_iff].
  - apply Z.leb_gt. lia.
  - apply Z.leb_le. lia.
Qed.

End NumberFacts.

Section LoopFacts.

Context `{host : Host}.

(** The emission loop hands every value of the iteration to the
    observer, then the terminal signal, and stops: nothing is queued
    once the fuel exceeds the number of values. *)
Lemma loop_drains (sched : Scheduler) (it : iterator) (vs : list value)
    (t : outcome) (it' : iterator) :
  drains it vs t it' ->
  forall (o : observer) (st fuel : nat),
    (length vs < fuel)%nat ->
    scheduleRecursive sched fuel st createScheduleMethod (mkSubscription o it)
    = (mkSubscription (o ++ (OnNext <$> vs) ++ [terminal t]) it', None).
Proof.
  induction 1 as [it it' Hn | it it' e Hn | it it1 v vs t it' Hn Hd IH];
    intros o st [|fuel] Hlt; simpl in Hlt; try lia.
  - simpl. unfold createScheduleMethod, loopRecursive. simpl. now rewrite Hn.
  - simpl. unfold createScheduleMethod, loopRecursive. simpl. now rewrite Hn.
  - simpl. unfold createScheduleMethod at 1, loopRecursive. simpl. rewrite Hn.
    rewrite IH by lia. unfold onNext. now rewrite <- app_assoc.
Qed.

(** An array iterator whose length denotes [n] hands out the indexed
    properties from its cursor up to [n - 1]. *)
Lemma ArrayIt_drains (a : value) (l : number) (n : nat) :
  l =n= of_nat n ->
  forall k i, (i + k = n)%nat ->
    drains (ArrayIt a l i) (get_index a <$> seq i k) Done (ArrayIt a l n).
Proof.
  intros Hl. induction k as [|k IH]; intros i Hik.
  - replace i with n by lia. apply drains_done. simpl.
    unfold ArrayIterator_next. rewrite (num_lt_of_nat n n l Hl).
    now rewrite bool_decide_eq_false_2 by lia.
  - simpl. eapply drains_yield; [| apply IH; lia]. simpl.
    unfold ArrayIterator_next. rewrite (num_lt_of_nat i n l Hl).
    now rewrite bool_decide_eq_true_2 by lia.
Qed.

(** A string iterator hands out the characters from its cursor on. *)
Lemma StringIt_drains (s : string) :
  forall k i, (i + k = String.length s)%nat ->
    drains (StringIt s (of_nat (String.length s)) i)
           ((fun j => VStr (charAt s j)) <$> seq i k) Done
           (StringIt s (of_nat (String.length s)) (String.length s)).
Proof.
  pose proof (num_eq_refl (of_nat (String.length s))) as Hl.
  induction k as [|k IH]; intros i Hik.
  - replace i with (String.length s) by lia. apply drains_done. simpl.
    unfold StringIterator_next. rewrite (num_lt_of_nat _ _ _ Hl).
    now rewrite bool_decide_eq_false_2 by lia.
  - simpl. eapply drains_yield; [| apply IH; lia]. simpl.
    unfold StringIterator_next. rewrite (num_lt_of_nat _ _ _ Hl).
    now rewrite bool_decide_eq_true_2 by lia.
Qed.

(** A user iterator hands out what its script says. *)
Lemma ScriptIt_drains (f : script) (t : outcome) :
  (forall v, t <> Yield v) ->
  forall (vs : list value) (k : nat),
    (forall j v, vs !! j = Some v -> f (k + j)%nat = Yield v) ->
    f (k + length vs)%nat = t ->
    drains (ScriptIt f k) vs t (ScriptIt f (S (k + length vs))).
Proof.
  intros Ht. induction vs as [|v vs IH]; intros k Hvs Hend.
  - simpl in Hend. rewrite Nat.add_0_r in *. destruct t as [v| |e].
    + now destruct (Ht v).
    + apply drains_done. simpl. now rewrite Hend.
    + apply drains_throw. simpl. now rewrite Hend.
  - eapply drains_yield.
    + simpl. specialize (Hvs 0%nat v eq_refl). rewrite Nat.add_0_r in Hvs.
      now rewrite Hvs.
    + simpl length. replace (S (k + S (length vs))) with (S (S k + length vs)) by lia.
      apply IH.
      * intros j w Hj. replace (S k + j)%nat with (k + S j)%nat by lia.
        now apply Hvs.
      * rewrite <- Hend. f_equal. simpl. lia.
Qed.

End LoopFacts.

Section ToLengthFacts.

Context `{host : Host}.

Lemma Qle_bool_false (x y : Q) : Qle_bool x y = false <-> y < x.
Proof.
  rewrite <- not_true_iff_false, Qle_bool_iff. split.
  - apply Qnot_le_lt.
  - apply Qlt_not_le.
Qed.

Lemma Qfloor_nonneg (q : Q) : 0 <= q -> (0 <= Qfloor q)%Z.
Proof.
  intros Hq. change 0%Z with (Qfloor (inject_Z 0)).
  now apply Qfloor_resp_le.
Qed.

(** [toLength] on a finite, non-zero length [q]: the product of the sign
    and the floor of the absolute value, then the two clamps. *)
Lemma toLength_finite (o : value) (q : Q) :
  ToNumber (get_length o) = Fin q ->
  toLength o =n=
    (if Qle_bool q 0 then Fin 0 else of_Z (Z.min (Qfloor q) (2 ^ 53 - 1))).
Proof.
  intros Hlen. unfold toLength. rewrite Hlen. cbn [isNaN numberIsFinite isFinite negb].
  rewrite orb_false_r. cbn [num_strict_eq].
  destruct (Qeq_bool q 0) eqn:Hz.
  - apply Qeq_bool_iff in Hz.
    assert (Hle : Qle_bool q 0 = true) by (apply Qle_bool_iff; rewrite Hz; apply Qle_refl).
    rewrite Hle. exact Hz.
  - apply Qeq_bool_neq in Hz.
    unfold sign. cbn [ToNumber num_strict_eq isNaN num_lt Math_abs Math_floor].
    destruct (Qeq_bool q 0) eqn:Hz'; [apply Qeq_bool_iff in Hz'; contradiction|].
    destruct (Qle_bool 0 q) eqn:Hpos; cbn [negb].
    + (* 0 < q *)
      apply Qle_bool_iff in Hpos.
      assert (Hq : 0 < q) by (apply Qle_lteq in Hpos as [H|H]; [exact H | symmetry in H; contradiction]).
      assert (Hneg : Qle_bool q 0 = false) by now apply Qle_bool_false.
      rewrite Hneg. rewrite (Qfloor_comp _ _ (Qabs_pos q Hpos)).
      pose proof (Qfloor_nonneg q Hpos) as Hfl.
      unfold of_Z, num_mul, num_le, num_gt, num_lt, maxSafeInteger, of_Z.
      rewrite !(Qleb_comp _ _ (Qmult_1_l _) _ _ (Qeq_refl _)).
      change 0 with (inject_Z 0). rewrite !Qle_bool_inject.
      destruct (Z.leb_spec (Qfloor q) 0).
      * replace (Z.min (Qfloor q) (2 ^ 53 - 1)) with 0%Z by lia. apply Qeq_refl.
      * destruct (Z.leb_spec (Qfloor q) (2 ^ 53 - 1)); cbn [negb num_eq].
        -- rewrite Z.min_l by lia. apply Qmult_1_l.
        -- rewrite Z.min_r by lia. apply Qeq_refl.
    + (* q < 0 *)
      apply Qle_bool_false in Hpos.
      assert (Hneg : Qle_bool q 0 = true) by (apply Qle_bool_iff; now apply Qlt_le_weak).
      rewrite Hneg.
      pose proof (Qfloor_nonneg (Qabs q) (Qabs_nonneg q)) as Hfl.
      unfold of_Z, num_mul, num_le.
      assert (Hle : Qle_bool (-1 * inject_Z (Qfloor (Qabs q))) 0 = true).
      { apply Qle_bool_iff.
        assert (E : -1 * inject_Z (Qfloor (Qabs q)) == inject_Z (- Qfloor (Qabs q)))
          by (rewrite inject_Z_opp; ring).
        rewrite E. change 0 with (inject_Z 0). rewrite <- Zle_Qle. lia. }
      rewrite Hle. apply Qeq_refl.
Qed.

(** An array-like whose [length] is the natural number [n], at most
    [2^53 - 1], has [n] elements. *)
Lemma toLength_of_nat (o : value) (n : nat) :
  get_length o = VNum (of_nat n) -> (Z.of_nat n <= 2 ^ 53 - 1)%Z ->
  toLength o =n= of_nat n.
Proof.
  intros Hlen Hn.
  assert (Hnum : ToNumber (get_length o) = Fin (inject_Z (Z.of_nat n))) by now rewrite Hlen.
  pose proof (toLength_finite o _ Hnum) as H.
  rewrite Qfloor_Z in H. change 0 with (inject_Z 0) in H.
  rewrite Qle_bool_inject in H.
  destruct (Z.leb_spec (Z.of_nat n) 0).
  - replace n with 0%nat by lia. exact H.
  - rewrite Z.min_l in H by lia. exact H.
Qed.

End ToLengthFacts.

Section FromFacts.

Context `{host : Host}.

Lemma typeof_string (o : value) :
  String.eqb (typeof o) "string" = true <-> exists s, o = VStr s.
Proof.
  split.
  - destruct o; simpl; try discriminate. eauto.
  - now intros [s ->].
Qed.

Lemma default_lookup_seq {A : Type} (d : A) (l : list A) :
  (fun i => default d (l !! i)) <$> seq 0 (length l) = l.
Proof.
  apply list_eq. intros i. rewrite list_lookup_fmap.
  destruct (decide (i < length l)%nat) as [Hi|Hi].
  - rewrite lookup_seq_lt by exact Hi. simpl.
    destruct (lookup_lt_is_Some_2 l i Hi) as [x Hx]. now rewrite Hx.
  - rewrite lookup_seq_ge by lia. simpl. symmetry. apply lookup_ge_None. lia.
Qed.

Lemma length_chars (s : string) : length (chars s) = String.length s.
Proof. unfold chars. now rewrite length_fmap, length_seq. Qed.

(** The String object of [s] has the characters of [s] as its indexed
    properties. *)
Lemma ToObject_string_index (s : string) :
  get_index (ToObject (VStr s)) <$> seq 0 (String.length s) = chars s.
Proof.
  simpl. rewrite <- (default_lookup_seq VUndefined (chars s)) at 2.
  rewrite length_chars. apply list_fmap_ext. intros _ i _.
  cbn [get_index o_index]. now rewrite lookup_map_seq_0.
Qed.

(** [Object(v)] is never [null] or [undefined]. *)
Lemma ToObject_not_null (v : value) : eq_null (ToObject v) = false.
Proof. now destruct v. Qed.

(** An accepted source is subscribed by draining the iterator that
    [getIterable] resolves for it. *)
Lemma from_subscribe_drains (src thisArg : value) (sched : scheduler_arg)
    (it it' : iterator) (vs : list value) (t : outcome) (o : observer)
    (fuel : nat) :
  eq_null src = false ->
  getIterable (ToObject src) = Return it ->
  drains it vs t it' ->
  (length vs < fuel)%nat ->
  from_subscribe src thisArg sched o fuel
  = Return (mkSubscription (o ++ (OnNext <$> vs) ++ [terminal t]) it', None).
Proof.
  intros Hnull Hit Hd Hfuel. unfold from_subscribe, observableFrom.
  rewrite Hnull. unfold subscribeCore. cbn [_iterable _scheduler].
  rewrite Hit. f_equal. now apply loop_drains.
Qed.

(** C1. Subscribing to [from(A)] for an array-like [A] (an object
    without the iterator method whose [length] is defined) with [n]
    elements, [n] being the count [toLength] derives, delivers
    [onNext(A[0])], ..., [onNext(A[n-1])] in index order and then one
    [onCompleted]; no [onError] is delivered, and once the [n + 1]
    steps have run nothing is left queued. *)
Theorem from_array_like_emits (A : object) (n : nat) (thisArg : value)
    (sched : scheduler_arg) (o : observer) (fuel : nat) :
  o_iterator A = None ->
  is_defined (o_length A) = true ->
  toLength (VObj A) =n= of_nat n ->
  (n < fuel)%nat ->
  exists it,
    from_subscribe (VObj A) thisArg sched o fuel
    = Return (mkSubscription
                (o ++ (OnNext <$> (get_index (VObj A) <$> seq 0 n))
                   ++ [OnCompleted]) it, None).
Proof.
  intros Hit Hlen Hn Hfuel. exists (ArrayIt (VObj A) (toLength (VObj A)) n).
  apply (from_subscribe_drains _ _ _ (ArrayIterator (VObj A)) _ _ Done).
  - reflexivity.
  - simpl. rewrite Hit, Hlen. reflexivity.
  - now apply ArrayIt_drains.
  - now rewrite !length_fmap, length_seq.
Qed.

(** C2. [from(null)] and [from(undefined)] throw at the call: the
    answer is the error and no observable; every other source is
    accepted, so the check on [null] is made nowhere else. *)
Theorem from_null_throws_at_call (thisArg : value) (sched : scheduler_arg) :
  observableFrom VNull thisArg sched = Raise (Error "iterable cannot be null.")
  /\ observableFrom VUndefined thisArg sched
     = Raise (Error "iterable cannot be null.")
  /\ forall iterable,
       match iterable with
       | VNull | VUndefined =>
           observableFrom iterable thisArg sched
           = Raise (Error "iterable cannot be null.")
       | _ =>
           observableFrom iterable thisArg sched
           = Return (mkFromObservable iterable (scheduler_or_default sched))
       end.
Proof.
  repeat split. intros iterable. now destruct iterable.
Qed.

(** C3. When the iterator of the source yields the values [vs] on its
    first [k - 1] pulls and throws [e] on the [k]-th, the subscription
    delivers [onNext] for each value of [vs] in order, then one
    [onError(e)], no [onCompleted], and stops: nothing is queued
    afterwards however long the scheduler is observed. *)
Theorem from_iterator_throws (src : value) (f : script) (vs : list value)
    (e : exn) (thisArg : value) (sched : scheduler_arg) (o : observer)
    (fuel : nat) :
  eq_null src = false ->
  get_iterator (ToObject src) = Some f ->
  (forall j v, vs !! j = Some v -> f j = Yield v) ->
  f (length vs) = Throw e ->
  (length vs < fuel)%nat ->
  exists it,
    from_subscribe src thisArg sched o fuel
    = Return (mkSubscription (o ++ (OnNext <$> vs) ++ [OnError e]) it, None).
Proof.
  intros Hnull Hf Hvs He Hfuel. exists (ScriptIt f (S (0 + length vs))).
  apply (from_subscribe_drains _ _ _ (ScriptIt f 0) _ _ (Throw e)); auto.
  - pose proof (ToObject_not_null src) as Hn. unfold getIterable.
    rewrite Hf. now destruct (ToObject src).
  - apply ScriptIt_drains; [discriminate | exact Hvs | exact He].
Qed.

Lemma chars_lookup (s : string) (j : nat) (v : value) :
  chars s !! j = Some v -> (j < String.length s)%nat /\ v = VStr (charAt s j).
Proof.
  unfold chars. rewrite list_lookup_fmap. intros H.
  destruct (seq 0 (String.length s) !! j) as [i|] eqn:Hi; [|discriminate].
  apply lookup_seq in Hi as [-> Hlt]. simpl in H. now inversion H.
Qed.

(** How [getIterable] resolves a string that reaches it through
    [Object(...)], as it does at subscribe time: by the host's iterator
    method where strings have one, else as an array-like; either way the
    characters come out one by one. *)
Lemma string_source_drains (s : string) :
  (Z.of_nat (String.length s) <= 2 ^ 53 - 1)%Z ->
  string_iterator_per_character s ->
  exists it it',
    getIterable (ToObject (VStr s)) = Return it /\
    drains it (chars s) Done it'.
Proof.
  intros Hlen Hhost. unfold string_iterator_per_character in Hhost.
  unfold getIterable. cbn [ToObject get_iterator o_iterator].
  destruct (string_iterator s) as [f|] eqn:Hf.
  - exists (ScriptIt f 0), (ScriptIt f (S (0 + length (chars s)))).
    split; [reflexivity|]. apply ScriptIt_drains; [discriminate | |].
    + intros j v Hj. apply chars_lookup in Hj as [Hlt ->]. simpl. rewrite Hhost.
      now rewrite (proj2 (Nat.ltb_lt _ _) Hlt).
    + simpl. rewrite Hhost, length_chars.
      now rewrite (proj2 (Nat.ltb_ge _ _) (Nat.le_refl _)).
  - cbn [get_length o_length is_defined iterable_iterator].
    pose proof (ToObject_string_index s) as Hix. cbn [ToObject] in Hix.
    rewrite Hf in Hix.
    match goal with
    | |- context [ArrayIterator ?x] => remember x as w eqn:Hw
    end.
    assert (Hn : toLength w =n= of_nat (String.length s))
      by (apply toLength_of_nat; [now rewrite Hw | exact Hlen]).
    exists (ArrayIterator w), (ArrayIt w (toLength w) (String.length s)).
    split; [reflexivity|].
    pose proof (ArrayIt_drains w (toLength w) _ Hn (String.length s) 0%nat eq_refl) as Hd.
    rewrite Hix in Hd. exact Hd.
Qed.

(** C4. [getIterable] resolves a source (never [null] where [from]
    calls it) in a fixed order: the iterator method of the source when
    it has one; else, for a string, the string iterator, which hands out
    the characters one by one; else, when [length] is defined, the array
    iterator, which hands out the properties at the indices below the
    derived length; else it throws the TypeError 'Object is not
    iterable'.  A string that arrives wrapped by [Object(...)], as at
    subscribe time, is resolved by the same order and again iterated
    character by character. *)
Theorem getIterable_resolution_order (o : value) :
  eq_null o = false ->
  match get_iterator o with
  | Some f => getIterable o = Return (ScriptIt f 0)
  | None =>
      if String.eqb (typeof o) "string" then
        exists s,
          o = VStr s /\ getIterable o = Return (StringIterator s) /\
          drains (StringIterator s) (chars s) Done
                 (StringIt s (of_nat (String.length s)) (String.length s))
      else if is_defined (get_length o) then
        getIterable o = Return (ArrayIterator o) /\
        forall n, toLength o =n= of_nat n ->
          drains (ArrayIterator o) (get_index o <$> seq 0 n) Done
                 (ArrayIt o (toLength o) n)
      else getIterable o = Raise (TypeError "Object is not iterable")
  end
  /\ forall s,
       o = VStr s ->
       (Z.of_nat (String.length s) <= 2 ^ 53 - 1)%Z ->
       string_iterator_per_character s ->
       exists it it',
         getIterable (ToObject o) = Return it /\ drains it (chars s) Done it'.
Proof.
  intros Hnull. split.
  - unfold getIterable.
    destruct (get_iterator o) as [f|] eqn:Hf.
    + destruct o; try discriminate; reflexivity.
    + destruct (String.eqb (typeof o) "string") eqn:Hty.
      * apply typeof_string in Hty as [s ->]. exists s.
        repeat split. apply (StringIt_drains s (String.length s) 0%nat eq_refl).
      * destruct o as [| |b|n|s|A]; try discriminate; cbn [get_length is_defined].
        -- reflexivity.
        -- reflexivity.
        -- destruct (is_defined (o_length A)); [|reflexivity].
           split; [reflexivity|]. intros n Hn.
           now apply ArrayIt_drains.
  - intros s -> Hlen Hhost. now apply string_source_drains.
Qed.

(** C5, as the code has it. The count [toLength] derives from the
    numeric value of [length]: 0 for NaN; for a finite length, 0 when it
    is negative or zero and otherwise its integer part, clamped from
    above to [2^53 - 1]; a length that is not finite is returned as it
    is, [+Infinity] and [-Infinity] alike. *)
Theorem toLength_derivation (o : value) :
  match ToNumber (get_length o) with
  | NaN => toLength o = Fin 0
  | Fin q =>
      toLength o =n=
        (if Qle_bool q 0 then Fin 0 else of_Z (Z.min (Qfloor q) (2 ^ 53 - 1)))
  | PInf => toLength o = PInf
  | NInf => toLength o = NInf
  end.
Proof.
  destruct (ToNumber (get_length o)) as [| | |q] eqn:Hlen.
  - unfold toLength. now rewrite Hlen.
  - unfold toLength. now rewrite Hlen.
  - unfold toLength. now rewrite Hlen.
  - now apply toLength_finite.
Qed.


(** C10. [thisArg] is never read: two calls of [from] that differ in it
    alone give the same answer (the same observable, or the same error),
    and subscribing gives the same signals and the same queue. *)
Theorem from_ignores_thisArg (iterable t1 t2 : value) (sched : scheduler_arg) :
  observableFrom iterable t1 sched = observableFrom iterable t2 sched
  /\ forall (o : observer) (fuel : nat),
       from_subscribe iterable t1 sched o fuel
       = from_subscribe iterable t2 sched o fuel.
Proof. split; reflexivity. Qed.

End FromFacts.

(** ** The claims on [from] at concrete sources *)

Lemma from_array_like_emits_witness :
  exists it,
    from_subscribe (host:=shim_host) (VObj sample_array) VUndefined
                   (ArgValue VUndefined) [] 4
    = Return (mkSubscription
                [OnNext (VNum (of_nat 10)); OnNext (VStr "x");
                 OnNext (VBool true); OnCompleted] it, None).
Proof.
  assert (Hn : toLength (host:=shim_host) (VObj sample_array) =n= of_nat 3)
    by (vm_compute; reflexivity).
  exact (from_array_like_emits (host:=shim_host) sample_array 3 VUndefined
           (ArgValue VUndefined) [] 4 eq_refl eq_refl Hn (le_n 4)).
Defined.

Lemma from_iterator_throws_witness :
  exists it,
    from_subscribe (host:=shim_host) (VObj failing_iterable) VNull
                   (ArgScheduler (customScheduler 7)) [] 3
    = Return (mkSubscription
                [OnNext (VNum (of_nat 1)); OnNext (VNum (of_nat 2));
                 OnError (Error "boom")] it, None).
Proof.
  assert (Hvs : forall j v,
             [VNum (of_nat 1); VNum (of_nat 2)] !! j = Some v ->
             failing_script j = Yield v).
  { intros [|[|j]] v H; simpl in H; inversion H; reflexivity. }
  exact (from_iterator_throws (host:=shim_host) (VObj failing_iterable)
           failing_script [VNum (of_nat 1); VNum (of_nat 2)] (Error "boom")
           VNull (ArgScheduler (customScheduler 7)) [] 3
           eq_refl eq_refl Hvs eq_refl (le_n 3)).
Defined.

Lemma getIterable_resolution_order_witness :
  getIterable (host:=shim_host) (VObj sample_array)
  = Return (ArrayIterator (VObj sample_array))
  /\ getIterable (host:=shim_host) (VStr "ab") = Return (StringIterator "ab")
  /\ getIterable (host:=shim_host) (VObj failing_iterable)
     = Return (ScriptIt failing_script 0)
  /\ getIterable (host:=shim_host) (VNum (of_nat 5))
     = Raise (TypeError "Object is not iterable").
Proof.
  split; [|split; [|split]].
  - exact (proj1 (proj1 (getIterable_resolution_order (host:=shim_host)
                           (VObj sample_array) eq_refl))).
  - destruct (proj1 (getIterable_resolution_order (host:=shim_host)
                       (VStr "ab") eq_refl)) as (s & Hs & Hit & _).
    injection Hs as <-. exact Hit.
  - exact (proj1 (getIterable_resolution_order (host:=shim_host)
                    (VObj failing_iterable) eq_refl)).
  - exact (proj1 (getIterable_resolution_order (host:=shim_host)
                    (VNum (of_nat 5)) eq_refl)).
Defined.

(** C5, as the claim states it, fails on a length of [+Infinity]: the
    derived count is [+Infinity], which is not [2^53 - 1] and not below
    it, and the array iterator built on it yields at every index, so
    the number of elements is not bounded by [2^53 - 1]. *)
Lemma toLength_infinite_length_unclamped :
  toLength (host:=shim_host) (VObj (mkObject None (VNum PInf) ∅)) = PInf
  /\ ~ toLength (host:=shim_host) (VObj (mkObject None (VNum PInf) ∅))
       =n= maxSafeInteger
  /\ num_le (toLength (host:=shim_host) (VObj (mkObject None (VNum PInf) ∅)))
            maxSafeInteger = false
  /\ forall i : nat,
       (next (ArrayIt (VObj (mkObject None (VNum PInf) ∅))
                (toLength (host:=shim_host)
                   (VObj (mkObject None (VNum PInf) ∅))) i)).2
       = Yield VUndefined.
Proof.
  repeat split. intros H. exact H.
Qed.



(** ** The event-pattern observable *)

Section EventPatternFacts.






(** C8. A subscription to the event-pattern observable builds one
    forwarding handler, passes it to [addHandler] in one call, and keeps
    the handler, [removeHandler] and the value [addHandler] returned in
    the disposable it answers; whenever the handler is called, in
    whatever world and with whatever arguments, the observer receives
    one [onNext] with the first argument ([undefined] when there is
    none) and the other arguments are dropped. *)
Theorem EventPattern_subscribe_forwards (this : EventPatternObservable)
    (o : nat) (w : world) :
  let d := (EventPattern_subscribeCore this (ObserverRef o) w).1 in
  let w1 := (EventPattern_subscribeCore this (ObserverRef o) w).2 in
  let fn := mkHandler (closures w) (ObserverRef o) in
  closures w1 = S (closures w)
  /\ calls w1 = calls w ++ [CallAdd fn]
  /\ heap w1 !! d
     = Some (mkEventPatternDisposable (_del this) fn (_add this fn) false)
  /\ observers w1 = observers w
  /\ (forall (w' : world) (a : value) (rest : list value),
        received (handler_call fn (a :: rest) w') o
        = received w' o ++ [OnNext a])
  /\ (forall w' : world,
        received (handler_call fn [] w') o
        = received w' o ++ [OnNext VUndefined]).
Proof.
  intros d w1 fn. subst d w1 fn.
  unfold EventPattern_subscribeCore, createHandler, new_EventPatternDisposable.
  cbn. repeat split.
  - now rewrite list_lookup_middle.
  - intros w' a rest. unfold received at 1. cbn.
    now rewrite lookup_insert_eq.
  - intros w'. unfold received at 1. cbn. now rewrite lookup_insert_eq.
Qed.

(** The disposable allocated last, still undisposed, is disposed by
    recording the call of [del], when it is a function, and setting the
    flag when that call did not throw. *)
Lemma dispose_last_allocated (ob : gmap nat observer) (cs : list call)
    (k : nat) (hp : list EventPatternDisposable) (sh : refcount)
    (del : callback) (fn : handler) (ret : value) :
  dispose (length hp)
    (mkWorld ob cs k (hp ++ [mkEventPatternDisposable del fn ret false]) sh)
  = mkWorld ob (cs ++ (if isFunction del then [CallDel del fn ret] else []))
      k (hp ++ [mkEventPatternDisposable del fn ret
                  (bool_decide (throws del = None))]) sh.
Proof.
  unfold dispose. cbn [heap]. rewrite list_lookup_middle by reflexivity.
  cbn [isDisposed negb d_del d_fn d_ret].
  assert (Hins : <[length hp := mkEventPatternDisposable del fn ret true]>
                   (hp ++ [mkEventPatternDisposable del fn ret false])
                 = hp ++ [mkEventPatternDisposable del fn ret true]).
  { rewrite insert_app_r_alt by lia. now rewrite Nat.sub_diag. }
  destruct del as [f|f e|v]; cbn [isFunction throws];
    unfold set_heap, set_calls;
    cbn [heap calls observers closures shared]; rewrite ?Hins;
    rewrite ?app_nil_r; reflexivity.
Qed.

(** The first subscriber registers with the event source. *)
Lemma RefCount_subscribe_first (add : handler -> value) (del : callback)
    (o : nat) (ob : gmap nat observer) (cs : list call) (k : nat)
    (hp : list EventPatternDisposable) (h : nat) (conn : option nat) :
  RefCount_subscribe (fromEventPattern add del) o
    (mkWorld ob cs k hp (mkRefcount [] h 0 conn))
  = (h, mkWorld ob (cs ++ [CallAdd (mkHandler k SubjectRef)]) (S k)
          (hp ++ [mkEventPatternDisposable del (mkHandler k SubjectRef)
                    (add (mkHandler k SubjectRef)) false])
          (mkRefcount [(h, o)] (S h) 1 (Some (length hp)))).
Proof. reflexivity. Qed.

(** A further subscriber joins the subject and calls nothing. *)
Lemma RefCount_subscribe_next (this : RefCountObservable) (o : nat)
    (ob : gmap nat observer) (cs : list call) (k : nat)
    (hp : list EventPatternDisposable) (subj : list (nat * nat))
    (h n : nat) (conn : option nat) :
  RefCount_subscribe this o (mkWorld ob cs k hp (mkRefcount subj h (S n) conn))
  = (h, mkWorld ob cs k hp
          (mkRefcount (subj ++ [(h, o)]) (S h) (S (S n)) conn)).
Proof. reflexivity. Qed.

(** Unsubscribing while another subscriber remains calls nothing. *)
Lemma RefCount_dispose_not_last (h : nat) (ob : gmap nat observer)
    (cs : list call) (k : nat) (hp : list EventPatternDisposable)
    (subj : list (nat * nat)) (nh n : nat) (conn : option nat) :
  h ∈ subj.*1 ->
  RefCount_dispose h (mkWorld ob cs k hp (mkRefcount subj nh (S (S n)) conn))
  = mkWorld ob cs k hp
      (mkRefcount (filter (fun s => s.1 ≠ h) subj) nh (S n) conn).
Proof.
  intros Hin. unfold RefCount_dispose. cbn [shared rc_subject].
  now rewrite bool_decide_eq_true_2 by exact Hin.
Qed.

(** The last subscriber's unsubscription disposes the connection. *)
Lemma RefCount_dispose_last (h : nat) (ob : gmap nat observer)
    (cs : list call) (k : nat) (hp : list EventPatternDisposable)
    (subj : list (nat * nat)) (nh d : nat) :
  h ∈ subj.*1 ->
  RefCount_dispose h (mkWorld ob cs k hp (mkRefcount subj nh 1 (Some d)))
  = set_shared
      (fun r => mkRefcount (rc_subject r) (rc_handles r) 0 (rc_connection r))
      (dispose d
         (mkWorld ob cs k hp
            (mkRefcount (filter (fun s => s.1 ≠ h) subj) nh 1 (Some d)))).
Proof.
  intros Hin. unfold RefCount_dispose. cbn [shared rc_subject].
  rewrite bool_decide_eq_true_2 by exact Hin.
  unfold dispose, set_shared, set_heap, set_calls.
  cbn [heap shared rc_count rc_connection Nat.eqb observers calls closures
       rc_subject rc_handles].
  destruct (hp !! d) as [this|]; [|reflexivity].
  destruct (isDisposed this); [reflexivity|]. cbn [negb].
  destruct (d_del this); reflexivity.
Qed.

(** A handle that is not subscribed does nothing. *)
Lemma RefCount_dispose_absent (h : nat) (w : world) :
  h ∉ (rc_subject (shared w)).*1 -> RefCount_dispose h w = w.
Proof.
  intros Hout. unfold RefCount_dispose.
  now rewrite bool_decide_eq_false_2 by exact Hout.
Qed.

Ltac filter_handles :=
  rewrite ?filter_cons, ?filter_nil; cbn [fst snd];
  repeat first [ rewrite decide_True by lia | rewrite decide_False by lia ].

(** C6. Two observers subscribed to [fromEventPattern(add, remove)],
    in whatever world nobody is subscribed to it yet, share one
    registration: [add] is called once, by the first subscription; the
    first unsubscription, whichever observer it is, calls nothing; the
    second calls [remove], when it is a function, once, with the handler
    that was registered and the value [add] returned; unsubscribing
    again calls nothing; and a subscriber that arrives afterwards causes
    a new call of [add], with a new handler. *)
Theorem fromEventPattern_shares_registration (add : handler -> value)
    (del : callback) (o1 o2 o3 : nat) (ob : gmap nat observer)
    (cs : list call) (k : nat) (hp : list EventPatternDisposable) (h : nat)
    (conn : option nat) :
  let w0 := mkWorld ob cs k hp (mkRefcount [] h 0 conn) in
  let obs := fromEventPattern add del in
  let s1 := RefCount_subscribe obs o1 w0 in
  let s2 := RefCount_subscribe obs o2 s1.2 in
  let fn := mkHandler k SubjectRef in
  let fn' := mkHandler (S k) SubjectRef in
  let removed := if isFunction del then [CallDel del fn (add fn)] else [] in
  let w4 := RefCount_dispose s2.1 (RefCount_dispose s1.1 s2.2) in
  calls s1.2 = cs ++ [CallAdd fn]
  /\ calls s2.2 = cs ++ [CallAdd fn]
  /\ calls (RefCount_dispose s1.1 s2.2) = cs ++ [CallAdd fn]
  /\ calls (RefCount_dispose s2.1 s2.2) = cs ++ [CallAdd fn]
  /\ calls w4 = (cs ++ [CallAdd fn]) ++ removed
  /\ calls (RefCount_dispose s1.1 (RefCount_dispose s2.1 s2.2))
     = (cs ++ [CallAdd fn]) ++ removed
  /\ calls (RefCount_dispose s1.1 w4) = calls w4
  /\ calls (RefCount_dispose s2.1 w4) = calls w4
  /\ rc_count (shared w4) = 0%nat
  /\ calls (RefCount_subscribe obs o3 w4).2
     = ((cs ++ [CallAdd fn]) ++ removed) ++ [CallAdd fn'].
Proof.
  intros w0 obs s1 s2 fn fn' removed w4.
  subst w0 obs s1 s2 w4.
  rewrite RefCount_subscribe_first. cbn [fst snd].
  rewrite RefCount_subscribe_next. cbn [fst snd app].
  fold fn.
  rewrite !RefCount_dispose_not_last by (cbn; set_solver).
  filter_handles.
  rewrite !RefCount_dispose_last by (cbn; set_solver).
  filter_handles.
  rewrite !dispose_last_allocated. fold removed. cbn [set_shared shared calls heap observers closures rc_subject rc_handles rc_connection rc_count].
  rewrite !RefCount_dispose_absent by (cbn; set_solver).
  unfold set_shared.
  cbn [shared calls heap observers closures rc_subject rc_handles
       rc_connection rc_count].
  rewrite RefCount_subscribe_first. cbn [fst snd calls shared rc_count].
  repeat split.
Qed.

End EventPatternFacts.

(** * Further properties of [from.js] *)

Section SignFacts.

Context `{host : Host}.

(** [sign] on a number, case by case. *)
Lemma sign_number (n : number) :
  sign (VNum n)
  = match n with
    | NaN => NaN
    | PInf => Fin 1
    | NInf => Fin (-1)
    | Fin q =>
        if Qeq_bool q 0 then Fin q
        else if Qle_bool 0 q then Fin 1 else Fin (-1)
    end.
Proof.
  destruct n as [| | |q]; try reflexivity.
  unfold sign. cbn [ToNumber num_strict_eq isNaN num_lt].
  destruct (Qeq_bool q 0); [reflexivity|].
  now destruct (Qle_bool 0 q).
Qed.

(** [sign(x) * Math.abs(x)] is [x], for every number, NaN and the
    infinities included. *)
Theorem sign_times_abs (n : number) :
  num_mul (sign (VNum n)) (Math_abs n) =n= n.
Proof.
  rewrite sign_number. destruct n as [| | |q]; try exact I.
  cbn [Math_abs].
  destruct (Qeq_bool q 0) eqn:Hz.
  - apply Qeq_bool_iff in Hz. cbn. rewrite Hz. reflexivity.
  - destruct (Qle_bool 0 q) eqn:Hpos; cbn.
    + apply Qle_bool_iff in Hpos. rewrite (Qabs_pos q Hpos). ring.
    + apply Qle_bool_false in Hpos.
      rewrite (Qabs_neg q (Qlt_le_weak _ _ Hpos)). ring.
Qed.

(** [sign] is idempotent: the sign of a sign is that sign. *)
Theorem sign_idempotent (v : value) :
  sign (VNum (sign v)) = sign v.
Proof.
  assert (H : forall n, sign (VNum (sign (VNum n))) = sign (VNum n)).
  { intros n. rewrite (sign_number n). destruct n as [| | |q]; try reflexivity.
    destruct (Qeq_bool q 0) eqn:Hz.
    - rewrite sign_number. now rewrite Hz.
    - now destruct (Qle_bool 0 q). }
  specialize (H (ToNumber v)).
  assert (E : sign v = sign (VNum (ToNumber v))) by reflexivity.
  now rewrite E.
Qed.

End SignFacts.

Section ToLengthMore.

Context `{host : Host}.

Lemma num_le_proper (a a' b b' : number) :
  a =n= a' -> b =n= b' -> num_le a b = num_le a' b'.
Proof.
  destruct a, a', b, b'; simpl; try tauto.
  intros Ha Hb. now apply Qleb_comp.
Qed.

Lemma num_lt_proper (a a' b b' : number) :
  a =n= a' -> b =n= b' -> num_lt a b = num_lt a' b'.
Proof.
  destruct a, a', b, b'; simpl; try tauto.
  intros Ha Hb. f_equal. now apply Qleb_comp.
Qed.

Lemma toLength_integer (o : value) :
  match ToNumber (get_length o) with
  | PInf => toLength o = PInf
  | NInf => toLength o = NInf
  | _ => exists z : Z, (0 <= z <= 2 ^ 53 - 1)%Z /\ toLength o =n= of_Z z
  end.
Proof.
  destruct (ToNumber (get_length o)) as [| | |q] eqn:Hlen;
    try (unfold toLength; now rewrite Hlen).
  - exists 0%Z. split; [lia|]. unfold toLength. rewrite Hlen. simpl.
    reflexivity.
  - pose proof (toLength_finite o q Hlen) as H.
    destruct (Qle_bool q 0) eqn:Hq.
    + exists 0%Z. split; [lia | exact H].
    + exists (Z.min (Qfloor q) (2 ^ 53 - 1)). split; [|exact H].
      apply Qle_bool_false in Hq.
      pose proof (Qfloor_nonneg q (Qlt_le_weak _ _ Hq)). lia.
Qed.

(** [toLength] never answers NaN, a fraction, or a finite number
    outside [0 .. 2^53 - 1]: unless [length] is an infinity, which comes
    back as it is, the answer is an integer of that range. *)
Theorem toLength_range (o : value) :
  match ToNumber (get_length o) with
  | PInf => toLength o = PInf
  | NInf => toLength o = NInf
  | _ => exists z : Z, (0 <= z <= 2 ^ 53 - 1)%Z /\ toLength o =n= of_Z z
  end.
Proof. exact (toLength_integer o). Qed.

(** [toLength] is idempotent: a length that [toLength] answered is
    answered again unchanged. *)
Theorem toLength_idempotent (o a : value) :
  get_length a = VNum (toLength o) -> toLength a =n= toLength o.
Proof.
  intros Ha. pose proof (toLength_integer o) as Hr.
  assert (Hnum : ToNumber (get_length a) = toLength o) by now rewrite Ha.
  destruct (ToNumber (get_length o)) as [| | |q].
  - destruct Hr as (z & Hz & Hr). revert Hr Hnum.
    destruct (toLength o) as [| | |r]; simpl; try tauto. intros Hr Hnum.
    pose proof (toLength_finite a r Hnum) as H.
    eapply num_eq_trans; [exact H|]. clear H.
    rewrite (Qleb_comp _ _ Hr _ _ (Qeq_refl 0)), (Qfloor_comp _ _ Hr), Qfloor_Z.
    change 0 with (inject_Z 0). rewrite Qle_bool_inject.
    destruct (Z.leb_spec z 0).
    * simpl. rewrite Hr. replace z with 0%Z by lia. reflexivity.
    * rewrite Z.min_l by lia. simpl. now rewrite Hr.
  - unfold toLength at 1. rewrite Hnum, Hr. reflexivity.
  - unfold toLength at 1. rewrite Hnum, Hr. reflexivity.
  - destruct Hr as (z & Hz & Hr). revert Hr Hnum.
    destruct (toLength o) as [| | |r]; simpl; try tauto. intros Hr Hnum.
    pose proof (toLength_finite a r Hnum) as H.
    eapply num_eq_trans; [exact H|]. clear H.
    rewrite (Qleb_comp _ _ Hr _ _ (Qeq_refl 0)), (Qfloor_comp _ _ Hr), Qfloor_Z.
    change 0 with (inject_Z 0). rewrite Qle_bool_inject.
    destruct (Z.leb_spec z 0).
    * simpl. rewrite Hr. replace z with 0%Z by lia. reflexivity.
    * rewrite Z.min_l by lia. simpl. now rewrite Hr.
Qed.

(** An array-like has a first element exactly when [1 <= length]:
    the cursor test of a new array iterator succeeds in that case and
    in no other (NaN, a length below 1, [-Infinity]). *)
Lemma toLength_positive (o : value) :
  num_lt (of_nat 0) (toLength o) = num_le (Fin 1) (ToNumber (get_length o)).
Proof.
  destruct (ToNumber (get_length o)) as [| | |q] eqn:Hlen;
    try (unfold toLength; now rewrite Hlen).
  pose proof (toLength_finite o q Hlen) as H.
  rewrite (num_lt_proper _ _ _ _ (num_eq_refl (of_nat 0)) H).
  cbn [num_le].
  destruct (Qle_bool q 0) eqn:Hq.
  - apply Qle_bool_iff in Hq. symmetry. apply Qle_bool_false.
    eapply Qle_lt_trans; [exact Hq | reflexivity].
  - apply Qle_bool_false in Hq. unfold of_nat, of_Z. cbn [num_lt Z.of_nat].
    rewrite Qle_bool_inject.
    destruct (Qle_bool 1 q) eqn:H1.
    + apply Qle_bool_iff in H1. apply negb_true_iff, Z.leb_gt.
      pose proof (Qfloor_resp_le 1 q H1) as Hf.
      change (Qfloor 1) with 1%Z in Hf. lia.
    + apply Qle_bool_false in H1. apply negb_false_iff, Z.leb_le.
      assert (Hf : (Qfloor q < 1)%Z).
      { apply Z.lt_nge. intros Hge.
        apply (Qlt_irrefl q). eapply Qlt_le_trans; [exact H1|].
        eapply Qle_trans; [|apply Qfloor_le].
        change 1 with (inject_Z 1). now rewrite <- Zle_Qle. }
      lia.
Qed.

End ToLengthMore.

Section ToLengthOrder.

Context `{host : Host}.

Lemma toLength_not_NaN (o : value) : isNaN (toLength o) = false.
Proof.
  pose proof (toLength_integer o) as H.
  destruct (ToNumber (get_length o)); try (now rewrite H);
    destruct H as (z & _ & H); now destruct (toLength o).
Qed.

(** [toLength] is monotone: a larger [length] never gives a smaller
    count. *)
Theorem toLength_monotone (o1 o2 : value) :
  num_le (ToNumber (get_length o1)) (ToNumber (get_length o2)) = true ->
  num_le (toLength o1) (toLength o2) = true.
Proof.
  intros Hle.
  pose proof (toLength_not_NaN o1) as N1. pose proof (toLength_not_NaN o2) as N2.
  destruct (ToNumber (get_length o1)) as [| | |q1] eqn:H1;
    destruct (ToNumber (get_length o2)) as [| | |q2] eqn:H2;
    try discriminate Hle.
  - unfold toLength. now rewrite H1, H2.
  - unfold toLength. now rewrite H1, H2.
  - unfold toLength. now rewrite H1, H2.
  - assert (E : toLength o1 = NInf) by (unfold toLength; now rewrite H1).
    rewrite E. now destruct (toLength o2).
  - assert (E : toLength o2 = PInf) by (unfold toLength; now rewrite H2).
    rewrite E. now destruct (toLength o1).
  - cbn [num_le] in Hle. apply Qle_bool_iff in Hle.
    rewrite (num_le_proper _ _ _ _ (toLength_finite o1 q1 H1)
               (toLength_finite o2 q2 H2)).
    destruct (Qle_bool q1 0) eqn:Hq1.
    + destruct (Qle_bool q2 0) eqn:Hq2; [reflexivity|].
      apply Qle_bool_false in Hq2.
      pose proof (Qfloor_nonneg q2 (Qlt_le_weak _ _ Hq2)).
      unfold of_Z. cbn [num_le]. change 0 with (inject_Z 0).
      rewrite Qle_bool_inject. apply Z.leb_le. lia.
    + apply Qle_bool_false in Hq1.
      assert (Hq2 : Qle_bool q2 0 = false)
        by (apply Qle_bool_false; eapply Qlt_le_trans; eauto).
      rewrite Hq2. unfold of_Z. cbn [num_le]. rewrite Qle_bool_inject.
      apply Z.leb_le. pose proof (Qfloor_resp_le q1 q2 Hle). lia.
Qed.

End ToLengthOrder.

Section IterationMore.

Context `{host : Host}.

(** Once a built-in iterator has answered that it is done, it stays as
    it is and answers the same to every later call: the cursor does not
    move past the length. *)
Theorem builtin_iterator_exhausted (it it' : iterator) (k : nat) :
  builtin it = true ->
  next it = (it', Done) ->
  it' = it /\ next (Nat.iter k (fun x => (next x).1) it) = (it, Done).
Proof.
  intros Hb Hn.
  assert (Hsame : it' = it).
  { destruct it as [s l i|a l i|f j]; [| |discriminate Hb]; simpl in Hn.
    - unfold StringIterator_next in Hn.
      destruct (num_lt (of_nat i) l); now inversion Hn.
    - unfold ArrayIterator_next in Hn.
      destruct (num_lt (of_nat i) l); now inversion Hn. }
  subst it'. split; [reflexivity|].
  assert (Hiter : Nat.iter k (fun x => (next x).1) it = it).
  { induction k as [|k IH]; [reflexivity|]. simpl. rewrite IH. now rewrite Hn. }
  now rewrite Hiter.
Qed.

(** Whatever the iterator does and however long the loop is observed,
    the observer receives a run of [onNext], then at most one terminal
    signal, and nothing after it: while a step is queued only [onNext]
    has been delivered, one per step run; when none is queued the last
    signal, and it alone, is [onError] or [onCompleted]. *)
Theorem loop_signal_grammar (sched : Scheduler) (fuel st : nat)
    (w : subscription) :
  exists vs : list value,
    match (scheduleRecursive sched fuel st createScheduleMethod w).2 with
    | Some _ =>
        sub_o (scheduleRecursive sched fuel st createScheduleMethod w).1
        = sub_o w ++ (OnNext <$> vs)
        /\ length vs = fuel
    | None =>
        exists t : outcome,
          (forall v, terminal t <> OnNext v)
          /\ sub_o (scheduleRecursive sched fuel st createScheduleMethod w).1
             = sub_o w ++ (OnNext <$> vs) ++ [terminal t]
          /\ (length vs < fuel)%nat
    end.
Proof.
  revert st w. induction fuel as [|fuel IH]; intros st w.
  - exists []. simpl. now rewrite app_nil_r.
  - simpl. unfold createScheduleMethod at 1 3 5, loopRecursive.
    destruct (next (sub_it w)) as [it out]. destruct out as [v| |e].
    + destruct (IH (st + 1)%nat (mkSubscription (onNext v (sub_o w)) it))
        as [vs Hvs].
      exists (v :: vs).
      destruct (scheduleRecursive sched fuel (st + 1)%nat createScheduleMethod
                  (mkSubscription (onNext v (sub_o w)) it)) as [w' [st'|]];
        cbn [fst snd] in *.
      * destruct Hvs as [Ho Hl]. split; [|simpl; lia].
        rewrite Ho. cbn [sub_o]. unfold onNext. now rewrite <- app_assoc.
      * destruct Hvs as (t & Ht & Ho & Hl). exists t. repeat split; auto.
        -- rewrite Ho. cbn [sub_o]. unfold onNext. now rewrite <- app_assoc.
        -- simpl. lia.
    + exists []. cbn [fst snd]. exists Done. repeat split.
      * discriminate.
      * simpl. lia.
    + exists []. cbn [fst snd]. exists (Throw e). repeat split.
      * discriminate.
      * simpl. lia.
Qed.

(** While the cursor test succeeds the loop delivers one element per
    step, in index order, and queues the next step. *)
Lemma ArrayIt_loop_yields (sched : Scheduler) (a : value) (l : number) :
  forall (k i st : nat) (o : observer),
    (forall j, (i <= j < i + k)%nat -> num_lt (of_nat j) l = true) ->
    scheduleRecursive sched k st createScheduleMethod
      (mkSubscription o (ArrayIt a l i))
    = (mkSubscription (o ++ (OnNext <$> (get_index a <$> seq i k)))
         (ArrayIt a l (i + k)), Some (st + k)%nat).
Proof.
  induction k as [|k IH]; intros i st o Hlt.
  - simpl. now rewrite app_nil_r, !Nat.add_0_r.
  - simpl. unfold createScheduleMethod at 1, loopRecursive. cbn [sub_it sub_o next].
    unfold ArrayIterator_next. rewrite (Hlt i) by lia.
    rewrite IH by (intros j Hj; apply Hlt; lia).
    unfold onNext. rewrite <- app_assoc.
    replace (S i + k)%nat with (i + S k)%nat by lia.
    replace (st + 1 + k)%nat with (st + S k)%nat by lia.
    reflexivity.
Qed.

(** After [k] steps of the scheduler, [k] at most the number of
    elements, the observer of [from(A)] has received exactly the first
    [k] elements, in order, the cursor stands at [k] and step [k] is
    queued; before the scheduler runs ([k = 0]) nothing is delivered. *)
Theorem from_array_like_prefix (A : object) (n k : nat) (thisArg : value)
    (sched : scheduler_arg) (o : observer) :
  o_iterator A = None ->
  is_defined (o_length A) = true ->
  toLength (VObj A) =n= of_nat n ->
  (k <= n)%nat ->
  from_subscribe (VObj A) thisArg sched o k
  = Return (mkSubscription
              (o ++ (OnNext <$> (get_index (VObj A) <$> seq 0 k)))
              (ArrayIt (VObj A) (toLength (VObj A)) k), Some k).
Proof.
  intros Hit Hlen Hn Hk. unfold from_subscribe, observableFrom, subscribeCore.
  cbn [eq_null _iterable _scheduler ToObject getIterable get_iterator get_length].
  rewrite Hit, Hlen. cbn [iterable_iterator]. unfold ArrayIterator.
  rewrite ArrayIt_loop_yields; [reflexivity|].
  intros j Hj. rewrite (num_lt_of_nat j n _ Hn).
  apply bool_decide_eq_true_2. lia.
Qed.

(** An array-like whose [length] is [+Infinity] never completes: after
    any number of steps only [onNext] has been delivered, one per step,
    and a further step is queued. *)
Theorem from_infinite_length_never_completes (A : object) (thisArg : value)
    (sched : scheduler_arg) (o : observer) (fuel : nat) :
  o_iterator A = None ->
  ToNumber (o_length A) = PInf ->
  exists (vs : list value) (it : iterator) (st : nat),
    from_subscribe (VObj A) thisArg sched o fuel
    = Return (mkSubscription (o ++ (OnNext <$> vs)) it, Some st)
    /\ length vs = fuel.
Proof.
  intros Hit Hlen.
  assert (Hdef : is_defined (o_length A) = true).
  { destruct (o_length A); try reflexivity. discriminate Hlen. }
  assert (Hl : toLength (VObj A) = PInf).
  { unfold toLength. cbn [get_length]. now rewrite Hlen. }
  exists (get_index (VObj A) <$> seq 0 fuel), (ArrayIt (VObj A) PInf fuel), fuel.
  split; [|now rewrite length_fmap, length_seq].
  unfold from_subscribe, observableFrom, subscribeCore.
  cbn [eq_null _iterable _scheduler ToObject getIterable get_iterator get_length].
  rewrite Hit, Hdef. cbn [iterable_iterator]. unfold ArrayIterator. rewrite Hl.
  rewrite ArrayIt_loop_yields; [reflexivity|]. reflexivity.
Qed.

(** The first step on an array-like: [onNext(A[0])] and a queued second
    step when [1 <= length], and otherwise (NaN, a length below 1,
    [-Infinity]) [onCompleted] at once. *)
Theorem from_array_like_first_step (A : object) (thisArg : value)
    (sched : scheduler_arg) (o : observer) :
  o_iterator A = None ->
  is_defined (o_length A) = true ->
  from_subscribe (VObj A) thisArg sched o 1
  = Return
      (if num_le (Fin 1) (ToNumber (o_length A))
       then (mkSubscription (o ++ [OnNext (get_index (VObj A) 0)])
               (ArrayIt (VObj A) (toLength (VObj A)) 1), Some 1%nat)
       else (mkSubscription (o ++ [OnCompleted])
               (ArrayIt (VObj A) (toLength (VObj A)) 0), None)).
Proof.
  intros Hit Hlen. unfold from_subscribe, observableFrom, subscribeCore.
  cbn [eq_null _iterable _scheduler ToObject getIterable get_iterator get_length].
  rewrite Hit, Hlen. cbn [iterable_iterator scheduleRecursive].
  unfold createScheduleMethod, loopRecursive, ArrayIterator.
  cbn [sub_it sub_o next]. unfold ArrayIterator_next.
  rewrite (toLength_positive (VObj A)). cbn [get_length].
  now destruct (num_le (Fin 1) (ToNumber (o_length A))).
Qed.

(** When the wrapped source has neither the iterator method nor a
    defined [length], [subscribeCore] throws the TypeError 'Object is
    not iterable', whatever the observer and the scheduler: nothing is
    scheduled and the observer gets no signal, not even [onError]. *)
Theorem subscribeCore_not_iterable (this : FromObservable) (o : observer)
    (fuel : nat) :
  get_iterator (ToObject (_iterable this)) = None ->
  is_defined (get_length (ToObject (_iterable this))) = false ->
  subscribeCore this o fuel = Raise (TypeError "Object is not iterable").
Proof.
  unfold subscribeCore.
  pose proof (ToObject_not_null (_iterable this)) as Hnn.
  destruct (ToObject (_iterable this)) as [| |b|n|s|A] eqn:Hobj;
    try discriminate Hnn;
    try (now destruct (_iterable this) as [| |?|?|?|?]).
  cbn [getIterable get_iterator get_length].
  intros -> ->. reflexivity.
Qed.

(** The two validations of [from] differ in time: a number or a boolean
    is accepted at the call and refused at subscribe time, by the
    TypeError 'Object is not iterable'; a string is accepted by both. *)
Theorem from_primitive_sources (src thisArg : value) (sched : scheduler_arg)
    (o : observer) (fuel : nat) :
  match src with
  | VBool _ | VNum _ =>
      observableFrom src thisArg sched
      = Return (mkFromObservable src (scheduler_or_default sched))
      /\ subscribeCore (mkFromObservable src (scheduler_or_default sched))
           o fuel
         = Raise (TypeError "Object is not iterable")
  | VStr _ =>
      observableFrom src thisArg sched
      = Return (mkFromObservable src (scheduler_or_default sched))
      /\ exists r,
           subscribeCore (mkFromObservable src (scheduler_or_default sched))
             o fuel = Return r
  | _ => True
  end.
Proof.
  destruct src as [| |b|n|s|A]; try exact I; try (split; reflexivity).
  split; [reflexivity|]. unfold subscribeCore.
  cbn [_iterable ToObject getIterable get_iterator o_iterator].
  destruct (string_iterator s); cbn; eauto.
Qed.

End IterationMore.

Section StringMore.

(** What an iterator hands out is determined by the iterator. *)
Lemma drains_functional (it : iterator) (vs vs' : list value)
    (t t' : outcome) (it1 it2 : iterator) :
  drains it vs t it1 -> drains it vs' t' it2 ->
  vs = vs' /\ t = t' /\ it1 = it2.
Proof.
  intros H. revert vs' t' it2.
  induction H as [it it' Hn | it it' e Hn | it ita v vs t it' Hn Hd IH];
    intros vs' t' it2 H'; inversion H'; subst;
    match goal with
    | H1 : next ?x = _, H2 : next ?x = _ |- _ =>
        rewrite H1 in H2; inversion H2; subst
    end; auto.
  destruct (IH _ _ _ H0) as (-> & -> & ->). auto.
Qed.

Lemma chars_cons (c : Ascii.ascii) (s : string) :
  chars (String c s) = VStr (String c "") :: chars s.
Proof.
  unfold chars. cbn [String.length seq fmap list_fmap].
  f_equal.
  - unfold charAt. simpl. now destruct s.
  - rewrite <- fmap_S_seq, <- list_fmap_compose. reflexivity.
Qed.

(** Without a surrogate pair, the code points of a string are its
    characters. *)
Lemma code_points_chars (s : string) :
  has_surrogate_pair s = false -> code_points s = chars s.
Proof.
  induction s as [|c s IH]; [reflexivity|].
  intros H. rewrite chars_cons. destruct s as [|c' s'].
  - reflexivity.
  - cbn [has_surrogate_pair] in H. apply orb_false_iff in H as [Hp Hs].
    cbn [code_points]. rewrite Hp. f_equal. now apply IH.
Qed.

(** So the iterator of the host with [Symbol.iterator] goes through
    such a string one character at a time. *)
Lemma es2015_per_character (s : string) :
  has_surrogate_pair s = false ->
  string_iterator_per_character (host:=es2015_host) s.
Proof.
  intros H k. cbn [string_iterator es2015_host].
  rewrite (code_points_chars s H). unfold chars. rewrite list_lookup_fmap.
  destruct (k <? String.length s)%nat eqn:Hk.
  - apply Nat.ltb_lt in Hk. now rewrite lookup_seq_lt by exact Hk.
  - apply Nat.ltb_ge in Hk. now rewrite lookup_seq_ge by lia.
Qed.

Lemma joined_chars (s : string) : joined (chars s) = s.
Proof.
  induction s as [|c s IH]; [reflexivity|].
  rewrite chars_cons. cbn [joined foldr]. fold (joined (chars s)).
  now rewrite IH.
Qed.

(** The values a string iterator hands out are the characters of the
    string and nothing else: there are as many as the string is long,
    each is a one-character string, and joined in order they give the
    string back. *)
Theorem StringIterator_round_trip (s : string) (vs : list value)
    (t : outcome) (it' : iterator) :
  drains (StringIterator s) vs t it' ->
  t = Done /\ length vs = String.length s /\ joined vs = s /\
  forall i v, vs !! i = Some v -> v = VStr (charAt s i).
Proof.
  intros Hd.
  pose proof (StringIt_drains s (String.length s) 0%nat eq_refl) as Hs.
  destruct (drains_functional _ _ _ _ _ _ _ Hd Hs) as (-> & -> & _).
  fold (chars s). repeat split.
  - apply length_chars.
  - apply joined_chars.
  - intros i v Hv. now apply chars_lookup in Hv.
Qed.

End StringMore.

Section EventPatternMore.


Lemma foldl_deliver_frame (v : value) (l : list (nat * nat)) (w : world) :
  let w' :=
    foldl (fun w s =>
             set_observers
               (fun m => <[s.2 := onNext v (received w s.2)]> m) w) w l in
  calls w' = calls w /\ heap w' = heap w /\ closures w' = closures w
  /\ shared w' = shared w.
Proof.
  revert w. induction l as [|s l IH]; intros w; [now simpl|].
  simpl. destruct (IH (set_observers
            (fun m => <[s.2 := onNext v (received w s.2)]> m) w))
    as (H1 & H2 & H3 & H4).
  now rewrite H1, H2, H3, H4.
Qed.

(** A call of a forwarding handler reaches observers only: it calls
    neither [add] nor [remove], disposes nothing and creates no closure;
    and the handler of one observer leaves the other observers'
    signals as they were. *)
Theorem handler_call_frame (fn : handler) (arguments : list value)
    (w : world) :
  calls (handler_call fn arguments w) = calls w
  /\ heap (handler_call fn arguments w) = heap w
  /\ closures (handler_call fn arguments w) = closures w
  /\ shared (handler_call fn arguments w) = shared w
  /\ forall o o', h_o fn = ObserverRef o -> o' <> o ->
       received (handler_call fn arguments w) o' = received w o'.
Proof.
  unfold handler_call, ref_onNext. destruct (h_o fn) as [o|].
  - repeat split. intros o0 o' Ho Hne. injection Ho as <-.
    unfold received. cbn. now rewrite lookup_insert_ne.
  - destruct (foldl_deliver_frame (default VUndefined (arguments !! 0%nat))
                (rc_subject (shared w)) w) as (H1 & H2 & H3 & H4).
    repeat split; auto. intros o o' Ho. discriminate Ho.
Qed.

(** Without the sharing of [fromEventPattern], every subscription to
    the event-pattern observable registers by itself: two subscriptions
    make two calls of [add], with two different handlers, and get two
    different disposables; disposing the first calls [remove] with the
    first handler only and leaves the second subscription registered
    and undisposed. *)
Theorem EventPattern_subscriptions_independent
    (this : EventPatternObservable) (o1 o2 : observer_ref) (w : world) :
  let s1 := EventPattern_subscribeCore this o1 w in
  let s2 := EventPattern_subscribeCore this o2 s1.2 in
  let fn1 := mkHandler (closures w) o1 in
  let fn2 := mkHandler (S (closures w)) o2 in
  s1.1 <> s2.1
  /\ fn1 <> fn2
  /\ calls s2.2 = calls w ++ [CallAdd fn1; CallAdd fn2]
  /\ calls (dispose s1.1 s2.2)
     = calls s2.2 ++ (if isFunction (_del this)
                      then [CallDel (_del this) fn1 (_add this fn1)] else [])
  /\ heap (dispose s1.1 s2.2) !! s2.1
     = Some (mkEventPatternDisposable (_del this) fn2 (_add this fn2) false).
Proof.
  intros s1 s2 fn1 fn2.
  set (d1 := mkEventPatternDisposable (_del this) fn1 (_add this fn1) false).
  set (d2 := mkEventPatternDisposable (_del this) fn2 (_add this fn2) false).
  set (w1 := mkWorld (observers w) (calls w ++ [CallAdd fn1]) (S (closures w))
               (heap w ++ [d1]) (shared w)).
  set (w2 := mkWorld (observers w) ((calls w ++ [CallAdd fn1]) ++ [CallAdd fn2])
               (S (S (closures w))) ((heap w ++ [d1]) ++ [d2]) (shared w)).
  assert (E1 : s1 = (length (heap w), w1)) by reflexivity.
  assert (E2 : s2 = (length (heap w ++ [d1]), w2)) by (subst s2; now rewrite E1).
  rewrite E1, E2. cbn [fst snd]. clear E1 E2 s1 s2.
  assert (Hl1 : heap w2 !! length (heap w) = Some d1).
  { cbn [heap w2]. rewrite lookup_app_l by (rewrite length_app; simpl; lia).
    now rewrite list_lookup_middle. }
  assert (Hl2 : heap w2 !! length (heap w ++ [d1]) = Some d2)
    by (cbn [heap w2]; now rewrite list_lookup_middle).
  assert (Hne : length (heap w) <> length (heap w ++ [d1]))
    by (rewrite length_app; simpl; lia).
  split; [exact Hne|].
  split; [subst fn1 fn2; intros H; injection H; lia|].
  split; [cbn [calls w2]; now rewrite <- app_assoc|].
  unfold dispose. rewrite Hl1. cbn [isDisposed d1 negb d_del d_fn d_ret].
  split.
  - destruct (_del this) as [f|f e|v]; cbn [isFunction throws];
      unfold set_heap, set_calls; cbn [calls];
      rewrite ?app_nil_r; reflexivity.
  - destruct (_del this) as [f|f e|v]; cbn [isFunction throws];
      unfold set_heap, set_calls; cbn [heap];
      rewrite ?list_lookup_insert_ne by exact Hne; exact Hl2.
Qed.

End EventPatternMore.

(** * Properties of the patch generator *)

Section PatchFacts.

Import Patches.

Lemma prefix_spec (p s : string) :
  String.prefix p s = true <-> exists post, s = p +:+ post.
Proof.
  revert s. induction p as [|a p IH]; intros s; simpl.
  - split; [eauto | now destruct s].
  - destruct s as [|b s]; simpl.
    + split; [discriminate | intros [post H]; discriminate].
    + destruct (Ascii.ascii_dec a b) as [->|Hne].
      * rewrite IH. split; intros [post H]; exists post.
        -- now rewrite H.
        -- now injection H.
      * split; [discriminate | intros [post H]; injection H; congruence].
Qed.

Lemma skip_app (p s : string) : skip (String.length p) (p +:+ s) = s.
Proof. induction p as [|a p IH]; simpl; [now destruct s | exact IH]. Qed.

Lemma append_assoc (a b c : string) : (a +:+ b) +:+ c = a +:+ (b +:+ c).
Proof.
  induction a as [|x a IH]; [reflexivity|].
  change (String x ((a +:+ b) +:+ c) = String x (a +:+ (b +:+ c))).
  now rewrite IH.
Qed.

Lemma append_nil_r (a : string) : a +:+ "" = a.
Proof.
  induction a as [|x a IH]; [reflexivity|].
  change (String x (a +:+ "") = String x a). now rewrite IH.
Qed.

(** [includes] is containment: somewhere in [s], not at a given
    place. *)
Lemma includes_spec (pat s : string) :
  includes pat s = true <-> exists pre post, s = pre +:+ pat +:+ post.
Proof.
  split.
  - induction s as [|c s IH]; cbn [includes].
    + destruct (String.prefix pat "") eqn:Hp; [|intros H; discriminate H].
      intros _. apply prefix_spec in Hp as [post Hp]. exists "", post. exact Hp.
    + destruct (String.prefix pat (String c s)) eqn:Hp.
      * intros _. apply prefix_spec in Hp as [post Hp]. exists "", post. exact Hp.
      * intros H. destruct (IH H) as (pre & post & ->).
        exists (String c pre), post. reflexivity.
  - intros (pre & post & ->). induction pre as [|c pre IH].
    + change ("" +:+ pat +:+ post) with (pat +:+ post).
      assert (Hp : String.prefix pat (pat +:+ post) = true)
        by (apply prefix_spec; eauto).
      destruct (pat +:+ post); cbn [includes]; now rewrite Hp.
    + change (String c pre +:+ pat +:+ post)
        with (String c (pre +:+ pat +:+ post)).
      cbn [includes]. rewrite IH.
      now destruct (String.prefix pat (String c (pre +:+ pat +:+ post))).
Qed.

(** An occurrence of [.ts] that begins inside [String c b] lies inside
    it: [.ts] cannot begin in a text and end in a [.ts] that follows. *)
Lemma prefix_ts_straddle (c : Ascii.ascii) (b post : string) :
  String.prefix ".ts" (String c b +:+ ".ts" +:+ post) = true ->
  String.prefix ".ts" (String c b) = true.
Proof.
  intros H. apply prefix_spec in H as [post' H]. apply prefix_spec.
  destruct b as [|c1 [|c2 b]]; cbn in H; inversion H; subst.
  exists b. reflexivity.
Qed.

Lemma includes_false_prefix (pat : string) (c : Ascii.ascii) (s : string) :
  includes pat (String c s) = false ->
  String.prefix pat (String c s) = false /\ includes pat s = false.
Proof.
  cbn [includes]. destruct (String.prefix pat (String c s)); [discriminate|].
  auto.
Qed.

Lemma replace_at_prefix (pat rep s : string) :
  String.prefix pat s = true ->
  replace pat rep s = rep +:+ skip (String.length pat) s.
Proof. intros H. destruct s; cbn [replace]; now rewrite H. Qed.

(** [replace('.ts', '')] removes the first [.ts] and that one only. *)
Lemma replace_ts (pre post : string) :
  includes ".ts" pre = false ->
  replace ".ts" "" (pre +:+ ".ts" +:+ post) = pre +:+ post.
Proof.
  induction pre as [|c pre IH]; intros Hpre.
  - change ("" +:+ ".ts" +:+ post) with (".ts" +:+ post).
    change ("" +:+ post) with post.
    assert (Hp : String.prefix ".ts" (".ts" +:+ post) = true)
      by (apply prefix_spec; eauto).
    rewrite (replace_at_prefix _ _ _ Hp). now rewrite skip_app.
  - apply includes_false_prefix in Hpre as [Hp Hin].
    change (String c pre +:+ ".ts" +:+ post)
      with (String c (pre +:+ ".ts" +:+ post)).
    change (String c pre +:+ post) with (String c (pre +:+ post)).
    cbn [replace].
    destruct (String.prefix ".ts" (String c (pre +:+ ".ts" +:+ post))) eqn:Hs.
    + apply (prefix_ts_straddle c pre post) in Hs. congruence.
    + now rewrite IH.
Qed.

(** A path without [.ts] is left as it is. *)
Lemma replace_absent (pat rep s : string) :
  includes pat s = false -> replace pat rep s = s.
Proof.
  induction s as [|c s IH]; cbn [includes replace].
  - destruct (String.prefix pat ""); [discriminate | reflexivity].
  - destruct (String.prefix pat (String c s)); [discriminate|].
    intros H. now rewrite IH.
Qed.

(** The member name of an observable is its file name with the first
    [.ts] taken out: the base name for a file [base.ts], the path
    itself when it has no [.ts], and, as the occurrence need not be the
    extension, [namex] for [name.tsx]. *)
Theorem getNameOnObservableProto_strips_ts (op : OperatorWrapper)
    (pre post : string) :
  path op = Some (pre +:+ ".ts" +:+ post) ->
  includes ".ts" pre = false ->
  getNameOnObservableProto op
  = Return (with_memberName (Some (pre +:+ post)) op).
Proof.
  intros Hp Hpre. unfold getNameOnObservableProto. rewrite Hp.
  now rewrite replace_ts.
Qed.

(** For an extended operator the flag [isStatic] has no effect: every
    patch line assigns to [observableProto], without [prototype.], and
    the generated contents are the same whatever the flag. *)
Theorem operator_extended_ignores_static (op : OperatorWrapper)
    (b1 b2 : bool) (alias : string) :
  isExtended op = Some true ->
  operator_patch_line (with_isStatic b1 op) alias
  = "observableProto." +:+ alias +:+ " = " +:+ show (exportedFnName op) +:+ ";"
  /\ match generateNewOperatorFileContents (with_isStatic b1 op),
           generateNewOperatorFileContents (with_isStatic b2 op) with
     | Return r1, Return r2 => newFileContents r1 = newFileContents r2
     | Raise e1, Raise e2 => e1 = e2
     | _, _ => False
     end.
Proof.
  intros Hext.
  assert (Hline : forall b a,
             operator_patch_line (with_isStatic b op) a
             = "observableProto." +:+ a +:+ " = "
                 +:+ show (exportedFnName op) +:+ ";").
  { intros b a. unfold operator_patch_line. cbn [with_isStatic isExtended isStatic exportedFnName].
    rewrite Hext. cbn [flag default]. rewrite orb_true_r. reflexivity. }
  split; [apply Hline|].
  unfold generateNewOperatorFileContents.
  cbn [with_isStatic path aliases isExtended exportedFnName].
  destruct (path op) as [p|]; [|reflexivity].
  destruct (aliases op) as [als|]; [|reflexivity].
  cbn [with_newFileContents newFileContents].
  assert (Hmap : operator_patch_line (with_isStatic b1 op) <$> als
                 = operator_patch_line (with_isStatic b2 op) <$> als)
    by (apply list_fmap_ext; intros _ a _; now rewrite !Hline).
  now rewrite Hmap.
Qed.

Lemma AdditionalAliases_lookup (k : string) (l : list string) :
  AdditionalAliases !! k = Some l ->
  omap (fun v => if truthy v then v else None) (Some <$> l) = l
  /\ Forall (fun a => a <> "") l.
Proof.
  unfold AdditionalAliases. cbn [list_to_map foldr fst snd uncurry].
  rewrite !lookup_insert, lookup_empty.
  repeat case_decide; intros Hl; inversion Hl; subst;
    (split; [reflexivity | repeat constructor; discriminate]).
Qed.

(** The aliases of an entry whose path ends in [.ts] are its member
    name, when it has one that is not empty, followed by the additional
    aliases the table holds for its path; an absent or empty name never
    gets among them. *)
Theorem getAliases_closed_form (op : OperatorWrapper) :
  endsWith ".ts" (show (path op)) = true ->
  let names :=
    (if truthy (memberName op) then [show (memberName op)] else [])
    ++ default [] (AdditionalAliases !! show (path op)) in
  getAliases op = with_aliases names op
  /\ Forall (fun a => a <> "") names.
Proof.
  intros _ names. subst names. unfold getAliases.
  assert (Hadd : exists l,
             default [] (AdditionalAliases !! show (path op)) = l
             /\ omap (fun v : option string => if truthy v then v else None)
                  (match AdditionalAliases !! show (path op) with
                   | Some l => Some <$> l
                   | None => [None]
                   end) = l
             /\ Forall (fun a => a <> "") l).
  { destruct (AdditionalAliases !! show (path op)) as [l|] eqn:Hl.
    - destruct (AdditionalAliases_lookup _ _ Hl) as [Hm Hne]. exists l. auto.
    - exists []. repeat split. constructor. }
  destruct Hadd as (l & -> & Hm & Hne).
  cbn [omap list_omap]. fold (@omap list _ _ _ (fun v : option string => if truthy v then v else None)).
  rewrite Hm.
  destruct (memberName op) as [m|]; cbn [truthy].
  - change (show (Some m)) with m.
    destruct (String.eqb m "") eqn:Hm0; cbn [negb app]; split; try reflexivity.
    + exact Hne.
    + constructor; [|exact Hne]. intros ->. discriminate Hm0.
  - cbn [app]. split; [reflexivity | exact Hne].
Qed.

(** The static method a generated observable file assigns is [create]
    for every alias of every file whose name ends in [.ts], but for the
    alias [of] of [fromArray.ts], which gets [of]; the aliases of
    [fromArray.ts] being the two that [getAliases] gives it. *)
Theorem observable_method_create (p alias : string) :
  endsWith ".ts" p = true ->
  (p = "fromArray.ts" -> alias = "fromArray" \/ alias = "of") ->
  observable_method (AliasMethodOverrides !! p) alias
  = if bool_decide (p = "fromArray.ts" /\ alias = "of") then "of"
    else "create".
Proof.
  intros _ _. unfold AliasMethodOverrides, observable_method.
  cbn [list_to_map foldr fst snd uncurry].
  rewrite lookup_insert, lookup_empty.
  case_decide as Hp.
  - subst p. cbn [mbind option_bind]. rewrite lookup_insert, lookup_empty.
    case_decide as Ha.
    + subst alias. now rewrite bool_decide_eq_true_2.
    + rewrite bool_decide_eq_false_2 by (intros [_ ?]; congruence).
      reflexivity.
  - rewrite bool_decide_eq_false_2 by (intros [? _]; congruence).
    reflexivity.
Qed.

(** An operator is marked extended exactly when its member name
    followed by [?] occurs somewhere in the kitchen-sink contents; the
    occurrence need not be a whole member, so a name that ends a longer
    optional member's name is marked too. *)
Theorem checkExtended_containment (op : OperatorWrapper) (k : string) :
  kitchenSinkFileContents op = Some k ->
  exists b,
    checkExtended op = Return (with_isExtended b op)
    /\ (b = true
        <-> exists pre post, k = pre +:+ (show (memberName op) +:+ "?") +:+ post).
Proof.
  intros Hk. unfold checkExtended. rewrite Hk.
  exists (includes (show (memberName op) +:+ "?") k). split; [reflexivity|].
  apply includes_spec.
Qed.

Lemma length_append (a b : string) :
  String.length (a +:+ b) = (String.length a + String.length b)%nat.
Proof.
  induction a as [|x a IH]; [reflexivity|].
  change (S (String.length (a +:+ b)) = S (String.length a + String.length b)).
  now rewrite IH.
Qed.

Lemma prefix_ci_self (pat tail : string) : prefix_ci pat (pat +:+ tail) = true.
Proof.
  induction pat as [|a pat IH]; [reflexivity|].
  change (((lower a =? lower a)%nat && prefix_ci pat (pat +:+ tail)) = true).
  now rewrite Nat.eqb_refl, IH.
Qed.

Lemma prefix_ci_app_long (pat x y : string) :
  (String.length pat <= String.length x)%nat ->
  prefix_ci pat (x +:+ y) = prefix_ci pat x.
Proof.
  revert x. induction pat as [|a pat IH]; intros x Hlen; [reflexivity|].
  destruct x as [|b x]; [simpl in Hlen; lia|].
  change (((lower a =? lower b)%nat && prefix_ci pat (x +:+ y))
          = ((lower a =? lower b)%nat && prefix_ci pat x)).
  rewrite IH by (simpl in Hlen; lia). reflexivity.
Qed.

Lemma after_match_ci_at (pat s : string) :
  prefix_ci pat s = true ->
  after_match_ci pat s = Some (skip (String.length pat) s).
Proof. intros H. destruct s; cbn [after_match_ci]; now rewrite H. Qed.

Lemma after_match_ci_cons (pat : string) (c : Ascii.ascii) (s : string) :
  after_match_ci pat (String c s)
  = if prefix_ci pat (String c s)
    then Some (skip (String.length pat) (String c s))
    else after_match_ci pat s.
Proof. reflexivity. Qed.

(** The leftmost match: when the literal, short of its last character,
    has no match in [pre] followed by it, the first match in
    [pre ++ literal ++ tail] is the one after [pre]. *)
Lemma after_match_ci_first (p : string) (z : Ascii.ascii)
    (pre tail : string) :
  after_match_ci (p +:+ String z "") (pre +:+ p) = None ->
  after_match_ci (p +:+ String z "") (pre +:+ (p +:+ String z "") +:+ tail)
  = Some tail.
Proof.
  set (pat := p +:+ String z "").
  induction pre as [|c pre IH]; intros Hnone.
  - change ("" +:+ pat +:+ tail) with (pat +:+ tail).
    rewrite after_match_ci_at by apply prefix_ci_self.
    now rewrite skip_app.
  - change (String c pre +:+ p) with (String c (pre +:+ p)) in Hnone.
    rewrite after_match_ci_cons in Hnone.
    destruct (prefix_ci pat (String c (pre +:+ p))) eqn:Hp; [discriminate|].
    change (String c pre +:+ pat +:+ tail)
      with (String c (pre +:+ pat +:+ tail)).
    rewrite after_match_ci_cons.
    assert (Hsplit : String c (pre +:+ pat +:+ tail)
                     = String c (pre +:+ p) +:+ (String z "" +:+ tail)).
    { change (String c (pre +:+ p) +:+ (String z "" +:+ tail))
        with (String c ((pre +:+ p) +:+ (String z "" +:+ tail))).
      f_equal. subst pat. now rewrite !append_assoc. }
    rewrite Hsplit at 1.
    rewrite prefix_ci_app_long, Hp.
    + now apply IH.
    + subst pat. cbn [String.length]. rewrite !length_append.
      cbn [String.length]. lia.
Qed.

Lemma take_while_app (f : Ascii.ascii -> bool) (name rest : string) :
  take_while f name = name -> take_while f rest = "" ->
  take_while f (name +:+ rest) = name.
Proof.
  intros Hname Hrest. induction name as [|c name IH]; [exact Hrest|].
  change (String c name +:+ rest) with (String c (name +:+ rest)).
  cbn [take_while] in *. destruct (f c); [|discriminate].
  injection Hname as Hname. now rewrite IH.
Qed.

(** The exported name is the run of letters and underscores that
    follows the first [export function ], whatever its case: a digit, a
    [$] or a parenthesis ends the name. *)
Theorem getOperatorName_reads_name (op : OperatorWrapper)
    (pre name rest : string) :
  srcFileContents op = Some (pre +:+ "export function " +:+ name +:+ rest) ->
  after_match_ci "export function " (pre +:+ "export function") = None ->
  take_while is_letter_or_underscore name = name ->
  take_while is_letter_or_underscore rest = "" ->
  getOperatorName op = Return (with_exportedFnName (Some name) op).
Proof.
  intros Hsrc Hfirst Hname Hrest. unfold getOperatorName. rewrite Hsrc.
  change (show (Some (pre +:+ "export function " +:+ name +:+ rest)))
    with (pre +:+ "export function " +:+ name +:+ rest).
  assert (Hm : after_match_ci "export function "
                 (pre +:+ "export function " +:+ name +:+ rest)
               = Some (name +:+ rest))
    by exact (after_match_ci_first "export function" (Ascii.ascii_of_nat 32)
                pre (name +:+ rest) Hfirst).
  rewrite Hm. now rewrite take_while_app.
Qed.

Lemma endsWith_app (x suffix : string) : endsWith suffix (x +:+ suffix) = true.
Proof.
  unfold endsWith. rewrite length_append.
  replace (String.length x + String.length suffix - String.length suffix)%nat
    with (String.length x) by lia.
  rewrite skip_app. apply String.eqb_refl.
Qed.

(** The chain over [./src/operator] never throws: an entry is skipped,
    when its name does not end in [.ts] or its source has no
    [export function ], or it gets a patch file, written under the
    entry's own name in [./src/add/operator]. *)
Theorem operator_chain_total (read : string -> string -> string)
    (kitchenSinkContents o : string) :
  match operator_chain read kitchenSinkContents o with
  | None =>
      endsWith ".ts" o = false
      \/ after_match_ci "export function " (read "operator" o) = None
  | Some (Return op) =>
      endsWith ".ts" o = true
      /\ path op = Some o
      /\ is_Some (newFileContents op)
      /\ writeToDisk_path op = "./src/add/operator/" +:+ o
  | Some (Raise _) => False
  end.
Proof.
  unfold operator_chain.
  destruct (endsWith ".ts" o) eqn:Hts; cbn [negb]; [|now left].
  set (op0 := loadSrcFile read _).
  assert (Hsrc : show (srcFileContents op0) = read "operator" o) by reflexivity.
  rewrite Hsrc.
  destruct (after_match_ci "export function " (read "operator" o))
    as [rest|] eqn:Hm; [|now right].
  unfold getOperatorName.
  assert (Hsrc' : show (srcFileContents (checkStatic op0)) = read "operator" o)
    by reflexivity.
  rewrite Hsrc', Hm.
  repeat split; eauto.
Qed.

(** The chain over [./src/observable] throws on exactly one kind of
    entry: a source that has [static create] and no [export class ].
    The filter lets it through and [getClassName] then reads the
    element of a match that is not there. *)
Theorem observable_chain_throws_iff (read : string -> string -> string)
    (o : string) (e : exn) :
  observable_chain read o = Some (Raise e)
  <-> e = undefined_error
      /\ includes "static create" (read "observable" o) = true
      /\ after_match_ci "export class " (read "observable" o) = None.
Proof.
  unfold observable_chain.
  set (op0 := loadSrcFile read _).
  assert (Hsrc : show (srcFileContents op0) = read "observable" o)
    by reflexivity.
  unfold checkForCreate, getClassName. rewrite Hsrc.
  destruct (includes "static create" (read "observable" o)); cbn [negb].
  - destruct (after_match_ci "export class " (read "observable" o)) as [rest|].
    + split; [intros H; discriminate H | intros (_ & _ & H); discriminate H].
    + split.
      * intros H. inversion H. auto.
      * intros (-> & _ & _). reflexivity.
  - split; [discriminate | intros (_ & H & _); discriminate H].
Qed.

(** From directory entry to patch file.  For an operator [base.ts]
    that none of the tables names, whose source exports the function
    [name], the generated file imports [Observable] and [name] and
    assigns [name] under its own name: to [Observable.prototype], or to
    [Observable] when the path has [-static.ts], or, when the kitchen
    sink has [name?], to [observableProto] after the two extra lines. *)
Theorem operator_chain_generates (read : string -> string -> string)
    (kitchenSinkContents base name pre rest : string) :
  includes ".ts" base = false ->
  SpecialCasePrototypes !! (base +:+ ".ts") = None ->
  AdditionalAliases !! (base +:+ ".ts") = None ->
  read "operator" (base +:+ ".ts")
  = pre +:+ "export function " +:+ name +:+ rest ->
  after_match_ci "export function " (pre +:+ "export function") = None ->
  take_while is_letter_or_underscore name = name ->
  take_while is_letter_or_underscore rest = "" ->
  name <> "" ->
  exists op,
    operator_chain read kitchenSinkContents (base +:+ ".ts")
    = Some (Return op)
    /\ newFileContents op
       = Some
           ("import {Observable} from '../../Observable';" +:+ nl
            +:+ "import {" +:+ name +:+ "} from '../../operator/" +:+ base
            +:+ "';" +:+ nl
            +:+ (if includes (name +:+ "?") kitchenSinkContents
                 then "import {KitchenSinkOperators} from '../../Rx.KitchenSink';"
                      +:+ nl
                      +:+ "const observableProto = (<KitchenSinkOperators<any>>Observable.prototype);"
                      +:+ nl +:+ "observableProto."
                 else if includes "-static.ts" (base +:+ ".ts")
                      then "Observable."
                      else "Observable.prototype.")
            +:+ name +:+ " = " +:+ name +:+ ";" +:+ nl).
Proof.
  intros Hbase Hspecial Hadditional Hread Hfirst Hname Hrest Hne.
  assert (Hm : after_match_ci "export function " (read "operator" (base +:+ ".ts"))
               = Some (name +:+ rest)).
  { rewrite Hread.
    exact (after_match_ci_first "export function" (Ascii.ascii_of_nat 32)
             pre (name +:+ rest) Hfirst). }
  assert (Hstrip : replace ".ts" "" (base +:+ ".ts") = base).
  { pose proof (replace_ts base "" Hbase) as H.
    now rewrite !append_nil_r in H. }
  assert (Htruthy : String.eqb name "" = false) by now apply String.eqb_neq.
  unfold operator_chain. rewrite endsWith_app. cbn [negb].
  set (op0 := loadSrcFile read _).
  assert (Hsrc : show (srcFileContents op0) = read "operator" (base +:+ ".ts"))
    by reflexivity.
  rewrite Hsrc, Hm. unfold getOperatorName.
  assert (Hsrc' : show (srcFileContents (checkStatic op0))
                  = read "operator" (base +:+ ".ts")) by reflexivity.
  rewrite Hsrc', Hm, (take_while_app _ _ _ Hname Hrest).
  eexists. split; [reflexivity|].
  cbv beta iota delta
    [generateNewOperatorFileContents checkExtended getAliases
     getNameOnOperatorProto checkStatic loadSrcFile op0 operator_patch_line
     with_newFileContents with_isStatic with_isExtended with_exportedFnName
     with_memberName with_aliases with_srcFileContents
     path methodType isExtended isStatic exportedFnName exportedClassName
     memberName aliases newFileContents srcFileContents
     kitchenSinkFileContents].
  change (show (Some (base +:+ ".ts"))) with (base +:+ ".ts").
  rewrite Hspecial, Hadditional.
  cbv beta iota zeta delta [or_else truthy flag show default from_option id].
  cbn [omap list_omap]. rewrite Htruthy.
  cbn [negb fmap list_fmap String.concat]. rewrite Hstrip.
  destruct (includes (name +:+ "?") kitchenSinkContents);
    destruct (includes "-static.ts" (base +:+ ".ts"));
    cbn [orb]; rewrite ?append_assoc; reflexivity.
Qed.

(** The name of an operator on the prototype, for a path that ends in
    [.ts] (as the paths the operator chain lets through do): for the
    six paths of the special-case table it is the base name of the file,
    whatever the function the file exports is called; for every other
    path it is the exported function's name. *)
Theorem getNameOnOperatorProto_name (op : OperatorWrapper) :
  endsWith ".ts" (show (path op)) = true ->
  memberName (getNameOnOperatorProto op)
  = match SpecialCasePrototypes !! show (path op) with
    | Some _ => Some (replace ".ts" "" (show (path op)))
    | None => exportedFnName op
    end.
Proof.
  intros _. unfold getNameOnOperatorProto. cbn [with_memberName memberName].
  unfold SpecialCasePrototypes. cbn [list_to_map foldr fst snd uncurry].
  rewrite !lookup_insert, lookup_empty.
  repeat case_decide;
    try match goal with H : _ = show (path op) |- _ => rewrite <- H end;
    reflexivity.
Qed.

(** From directory entry to patch file, for an observable [base.ts]
    that neither table names and whose source has [static create] and
    exports the class [cls]: the generated file imports [Observable]
    and [cls] and assigns [cls.create] to [Observable.base]. *)
Theorem observable_chain_generates (read : string -> string -> string)
    (base cls pre rest : string) :
  includes ".ts" base = false ->
  base <> "" ->
  AdditionalAliases !! (base +:+ ".ts") = None ->
  AliasMethodOverrides !! (base +:+ ".ts") = None ->
  read "observable" (base +:+ ".ts")
  = pre +:+ "export class " +:+ cls +:+ rest ->
  includes "static create" (read "observable" (base +:+ ".ts")) = true ->
  after_match_ci "export class " (pre +:+ "export class") = None ->
  take_while is_letter cls = cls ->
  take_while is_letter rest = "" ->
  exists op,
    observable_chain read (base +:+ ".ts") = Some (Return op)
    /\ newFileContents op
       = Some
           ("import {Observable} from '../../Observable';" +:+ nl
            +:+ "import {" +:+ cls +:+ "} from '../../observable/" +:+ base
            +:+ "';" +:+ nl
            +:+ "Observable." +:+ base +:+ " = " +:+ cls +:+ ".create;"
            +:+ nl).
Proof.
  intros Hbase Hne Hadditional Hoverride Hread Hcreate Hfirst Hcls Hrest.
  assert (Hm : after_match_ci "export class " (read "observable" (base +:+ ".ts"))
               = Some (cls +:+ rest)).
  { rewrite Hread.
    exact (after_match_ci_first "export class" (Ascii.ascii_of_nat 32)
             pre (cls +:+ rest) Hfirst). }
  assert (Hstrip : replace ".ts" "" (base +:+ ".ts") = base).
  { pose proof (replace_ts base "" Hbase) as H.
    now rewrite !append_nil_r in H. }
  assert (Htruthy : String.eqb base "" = false) by now apply String.eqb_neq.
  unfold observable_chain.
  set (op0 := loadSrcFile read _).
  assert (Hsrc : show (srcFileContents op0) = read "observable" (base +:+ ".ts"))
    by reflexivity.
  unfold checkForCreate, getClassName. rewrite Hsrc, Hcreate, Hm.
  cbn [negb]. rewrite (take_while_app _ _ _ Hcls Hrest).
  eexists. split; [reflexivity|].
  cbv beta iota zeta delta
    [generateNewObservableFileContents getAliases getNameOnObservableProto
     loadSrcFile op0 observable_patch_line observable_method
     with_newFileContents with_exportedClassName
     with_memberName with_aliases with_srcFileContents
     path methodType isExtended isStatic exportedFnName exportedClassName
     memberName aliases newFileContents srcFileContents
     kitchenSinkFileContents].
  rewrite Hstrip.
  change (show (Some (base +:+ ".ts"))) with (base +:+ ".ts").
  rewrite Hadditional, Hoverride.
  cbv beta iota zeta delta [or_else truthy flag show default from_option id].
  cbn [omap list_omap mbind option_bind]. rewrite Htruthy.
  cbn [negb fmap list_fmap String.concat String.eqb].
  rewrite ?append_assoc. reflexivity.
Qed.

End PatchFacts.

(** ** The further properties at concrete inputs *)

Lemma toLength_idempotent_witness :
  toLength (host:=shim_host)
    (VObj (mkObject None
             (VNum (toLength (host:=shim_host)
                      (VObj (mkObject None (VNum (Fin (5 # 2))) ∅)))) ∅))
  =n= toLength (host:=shim_host) (VObj (mkObject None (VNum (Fin (5 # 2))) ∅)).
Proof.
  exact (toLength_idempotent (host:=shim_host)
           (VObj (mkObject None (VNum (Fin (5 # 2))) ∅))
           (VObj (mkObject None
                    (VNum (toLength (host:=shim_host)
                             (VObj (mkObject None (VNum (Fin (5 # 2))) ∅))))
                    ∅))
           eq_refl).
Defined.

Lemma toLength_monotone_witness :
  num_le (toLength (host:=shim_host) (VObj (mkObject None (VNum (Fin (5 # 2))) ∅)))
         (toLength (host:=shim_host) (VObj (mkObject None (VNum (Fin 7)) ∅)))
  = true.
Proof.
  exact (toLength_monotone (host:=shim_host)
           (VObj (mkObject None (VNum (Fin (5 # 2))) ∅))
           (VObj (mkObject None (VNum (Fin 7)) ∅)) eq_refl).
Defined.

Lemma builtin_iterator_exhausted_witness :
  next (Nat.iter 4 (fun x => (next x).1)
          (ArrayIt (VObj sample_array) (of_nat 3) 3))
  = (ArrayIt (VObj sample_array) (of_nat 3) 3, Done).
Proof.
  exact (proj2 (builtin_iterator_exhausted
                  (ArrayIt (VObj sample_array) (of_nat 3) 3)
                  (ArrayIt (VObj sample_array) (of_nat 3) 3) 4
                  eq_refl eq_refl)).
Defined.

Lemma from_array_like_prefix_witness :
  from_subscribe (host:=shim_host) (VObj sample_array) VUndefined
                 (ArgValue VUndefined) [] 2
  = Return (mkSubscription
              [OnNext (VNum (of_nat 10)); OnNext (VStr "x")]
              (ArrayIt (VObj sample_array)
                 (toLength (host:=shim_host) (VObj sample_array)) 2),
            Some 2%nat).
Proof.
  assert (Hn : toLength (host:=shim_host) (VObj sample_array) =n= of_nat 3)
    by (vm_compute; reflexivity).
  exact (from_array_like_prefix (host:=shim_host) sample_array 3 2 VUndefined
           (ArgValue VUndefined) [] eq_refl eq_refl Hn (le_S 2 2 (le_n 2))).
Defined.

Lemma from_infinite_length_never_completes_witness :
  exists (vs : list value) (it : iterator) (st : nat),
    from_subscribe (host:=shim_host) (VObj (mkObject None (VNum PInf) ∅))
                   VUndefined (ArgValue VUndefined) [] 5
    = Return (mkSubscription ([] ++ (OnNext <$> vs)) it, Some st)
    /\ length vs = 5%nat.
Proof.
  exact (from_infinite_length_never_completes (host:=shim_host)
           (mkObject None (VNum PInf) ∅) VUndefined (ArgValue VUndefined)
           [] 5 eq_refl eq_refl).
Defined.

Lemma from_array_like_first_step_witness :
  from_subscribe (host:=shim_host) (VObj sample_array) VUndefined
                 (ArgValue VUndefined) [] 1
  = Return (mkSubscription [OnNext (VNum (of_nat 10))]
              (ArrayIt (VObj sample_array)
                 (toLength (host:=shim_host) (VObj sample_array)) 1),
            Some 1%nat).
Proof.
  exact (from_array_like_first_step (host:=shim_host) sample_array VUndefined
           (ArgValue VUndefined) [] eq_refl eq_refl).
Defined.

Lemma StringIterator_round_trip_witness :
  joined (chars "ab") = "ab".
Proof.
  exact (proj1 (proj2 (proj2
           (StringIterator_round_trip "ab" (chars "ab") Done
              (StringIt "ab" (of_nat 2) 2)
              (StringIt_drains "ab" 2 0 eq_refl))))).
Defined.

Lemma getNameOnObservableProto_strips_ts_witness :
  Patches.getNameOnObservableProto
    (Patches.mkOperatorWrapper (Some "fromArray.ts") Patches.Observable
       None None None None None None None None None)
  = Return
      (Patches.mkOperatorWrapper (Some "fromArray.ts") Patches.Observable
         None None None None (Some "fromArray") None None None None).
Proof.
  exact (getNameOnObservableProto_strips_ts
           (Patches.mkOperatorWrapper (Some "fromArray.ts") Patches.Observable
              None None None None None None None None None)
           "fromArray" "" eq_refl eq_refl).
Defined.

Lemma operator_extended_ignores_static_witness :
  Patches.operator_patch_line
    (Patches.with_isStatic true
       (Patches.mkOperatorWrapper (Some "merge-static.ts") Patches.Operator
          (Some true) None (Some "merge") None (Some "merge") (Some ["merge"])
          None None None))
    "merge"
  = "observableProto.merge = merge;".
Proof.
  exact (proj1 (operator_extended_ignores_static
                  (Patches.mkOperatorWrapper (Some "merge-static.ts")
                     Patches.Operator (Some true) None (Some "merge") None
                     (Some "merge") (Some ["merge"]) None None None)
                  true false "merge" eq_refl)).
Defined.

Lemma getOperatorName_reads_name_witness :
  Patches.getOperatorName
    (Patches.mkOperatorWrapper (Some "zip.ts") Patches.Operator None None
       None None None None None
       (Some "/* doc */ export function zip2(a, b) {}") None)
  = Return
      (Patches.mkOperatorWrapper (Some "zip.ts") Patches.Operator None None
         (Some "zip") None None None None
         (Some "/* doc */ export function zip2(a, b) {}") None).
Proof.
  exact (getOperatorName_reads_name
           (Patches.mkOperatorWrapper (Some "zip.ts") Patches.Operator None
              None None None None None None
              (Some "/* doc */ export function zip2(a, b) {}") None)
           "/* doc */ " "zip" "2(a, b) {}" eq_refl eq_refl eq_refl eq_refl).
Defined.

Lemma operator_chain_generates_witness :
  exists op,
    Patches.operator_chain (fun _ _ => "export function map(project) {}")
      "" "map.ts" = Some (Return op)
    /\ Patches.newFileContents op
       = Some ("import {Observable} from '../../Observable';" +:+ Patches.nl
               +:+ "import {map} from '../../operator/map';" +:+ Patches.nl
               +:+ "Observable.prototype.map = map;" +:+ Patches.nl).
Proof.
  assert (Hne : "map" <> "") by discriminate.
  exact (operator_chain_generates (fun _ _ => "export function map(project) {}")
           "" "map" "map" "" "(project) {}"
           eq_refl eq_refl eq_refl eq_refl eq_refl eq_refl eq_refl Hne).
Defined.

Lemma checkExtended_containment_witness :
  exists b,
    Patches.checkExtended
      (Patches.mkOperatorWrapper (Some "map.ts") Patches.Operator None None
         (Some "map") None (Some "map") None None None
         (Some "flatmap?: any;"))
    = Return
        (Patches.with_isExtended b
           (Patches.mkOperatorWrapper (Some "map.ts") Patches.Operator None
              None (Some "map") None (Some "map") None None None
              (Some "flatmap?: any;")))
    /\ (b = true
        <-> exists pre post, "flatmap?: any;" = pre +:+ "map?" +:+ post).
Proof.
  exact (checkExtended_containment
           (Patches.mkOperatorWrapper (Some "map.ts") Patches.Operator None
              None (Some "map") None (Some "map") None None None
              (Some "flatmap?: any;"))
           "flatmap?: any;" eq_refl).
Defined.

Lemma observable_chain_generates_witness :
  exists op,
    Patches.observable_chain
      (fun _ _ => "export class TimerObservable { static create() {} }")
      "timer.ts" = Some (Return op)
    /\ Patches.newFileContents op
       = Some ("import {Observable} from '../../Observable';" +:+ Patches.nl
               +:+ "import {TimerObservable} from '../../observable/timer';"
               +:+ Patches.nl
               +:+ "Observable.timer = TimerObservable.create;"
               +:+ Patches.nl).
Proof.
  assert (Hne : "timer" <> "") by discriminate.
  exact (observable_chain_generates
           (fun _ _ => "export class TimerObservable { static create() {} }")
           "timer" "TimerObservable" "" " { static create() {} }"
           eq_refl Hne eq_refl eq_refl eq_refl eq_refl eq_refl eq_refl
           eq_refl).
Defined.

Lemma subscribeCore_not_iterable_witness :
  subscribeCore (host:=shim_host)
    (mkFromObservable (VNum (of_nat 5)) currentThreadScheduler) [] 1
  = Raise (TypeError "Object is not iterable").
Proof.
  exact (subscribeCore_not_iterable (host:=shim_host)
           (mkFromObservable (VNum (of_nat 5)) currentThreadScheduler) [] 1
           eq_refl eq_refl).
Defined.

Lemma getAliases_closed_form_witness :
  Patches.getAliases
    (Patches.mkOperatorWrapper (Some "let.ts") Patches.Operator None None
       (Some "letProto") None (Some "let") None None None None)
  = Patches.with_aliases ["let"; "letBind"]
      (Patches.mkOperatorWrapper (Some "let.ts") Patches.Operator None None
         (Some "letProto") None (Some "let") None None None None)
  /\ Forall (fun a => a <> "") ["let"; "letBind"].
Proof.
  exact (getAliases_closed_form
           (Patches.mkOperatorWrapper (Some "let.ts") Patches.Operator None
              None (Some "letProto") None (Some "let") None None None None)
           eq_refl).
Defined.

Lemma observable_method_create_witness :
  Patches.observable_method (Patches.AliasMethodOverrides !! "fromArray.ts")
    "of" = "of".
Proof.
  exact (observable_method_create "fromArray.ts" "of" eq_refl
           (fun _ => or_intror eq_refl)).
Defined.

Lemma getNameOnOperatorProto_name_witness :
  Patches.memberName
    (Patches.getNameOnOperatorProto
       (Patches.mkOperatorWrapper (Some "switch.ts") Patches.Operator None
          None (Some "_switch") None None None None None None))
  = Some "switch".
Proof.
  exact (getNameOnOperatorProto_name
           (Patches.mkOperatorWrapper (Some "switch.ts") Patches.Operator None
              None (Some "_switch") None None None None None None)
           eq_refl).
Defined.
